(** * FabiansWelt: the country-tagged upload page (src/src/App.jsx)

    A shallow embedding of the component's logic: the file-name helpers,
    the country resolver of the map callback, the filtered view
    [countryEntries], the initial [load] and the submit handler
    [handleUpload], followed by the properties checked against them. *)

From Stdlib Require Import NArith Ascii String List Lia.
From stdpp Require Import base option list gmap strings.

Local Open Scope N_scope.

(** ** JavaScript strings

    A JS string is a sequence of UTF-16 code units.  The regular expression
    of [safeName] has no [u] flag, so it works unit by unit. *)

Definition jsstring := list N.

Definition ch (a : ascii) : N := N_of_ascii a.

(** An ASCII literal as a JS string. *)
Definition str (s : string) : jsstring := map ch (list_ascii_of_string s).

(** The empty string. *)
Definition empty : jsstring := [].

(** [a || b] on strings: the empty string is falsy. *)
Definition or_str (a b : jsstring) : jsstring :=
  match a with
  | [] => b
  | _ :: _ => a
  end.

(** [a || b] where [a] may be [undefined]. *)
Definition or_undef (a : option jsstring) (b : jsstring) : jsstring :=
  match a with
  | None => b
  | Some s => or_str s b
  end.

(** [String.prototype.toLowerCase], unit by unit.  A host built-in: the
    table below is the Unicode default lower-casing on U+0000..U+00FF plus
    the two units outside ASCII whose lower-case form contains an ASCII
    letter (U+0130, which becomes the two units "i" U+0307, and the Kelvin
    sign U+212A, which becomes "k").  Every other unit is returned as it is;
    the host sends such a unit to units outside ASCII again, which
    [safeName] replaces in the same way. *)
Definition lower_unit (u : N) : jsstring :=
  if (65 <=? u) && (u <=? 90) then [u + 32]
  else if (192 <=? u) && (u <=? 222) && negb (u =? 215) then [u + 32]
  else if u =? 304 then [105; 775]
  else if u =? 8490 then [107]
  else [u].

Definition toLowerCase (s : jsstring) : jsstring := flat_map lower_unit s.

(** ** Character classes of regular expressions *)

Inductive class_item :=
| CRange (lo hi : N)
| CChar (c : N).

Definition item_matches (u : N) (i : class_item) : bool :=
  match i with
  | CRange lo hi => (lo <=? u) && (u <=? hi)
  | CChar c => u =? c
  end.

(** [[...]] when [negated] is false, [[^...]] when it is true. *)
Definition class_matches (negated : bool) (items : list class_item) (u : N) : bool :=
  xorb negated (existsb (item_matches u) items).

(** [s.replace(/[...]/g, rep)] for a pattern that is one character class
    and a replacement text without [$]. *)
Definition replace_class (negated : bool) (items : list class_item)
    (rep : jsstring) (s : jsstring) : jsstring :=
  flat_map (fun u => if class_matches negated items u then rep else [u]) s.

(** App.jsx 52-54:
    [name.toLowerCase().replace(/[^a-z0-9-_\.]/g, "-")]. *)
Definition safeName (name : jsstring) : jsstring :=
  replace_class true
    [CRange (ch "a") (ch "z"); CRange (ch "0") (ch "9");
     CChar (ch "-"); CChar (ch "_"); CChar (ch ".")]
    (str "-") (toLowerCase name).

(** [s.split(sep)] for a separator of one unit: never an empty array. *)
Fixpoint split (sep : N) (s : jsstring) : list jsstring :=
  match s with
  | [] => [[]]
  | u :: r =>
      if u =? sep then [] :: split sep r
      else match split sep r with
           | seg :: segs => (u :: seg) :: segs
           | [] => [[u]]
           end
  end.

(** [Array.prototype.pop]'s result: the last element, [undefined] on an
    empty array. *)
Definition pop {A} (l : list A) : option A := last l.

(** ** Data *)

(** The selection [{ code, name }] kept in [activeCountry]. *)
Module Country.
Record t := mk { code : jsstring; name : jsstring }.
End Country.

(** A browser [File]: the handler reads its [name] and hands the whole
    object to the storage client. *)
Module File.
Record t := mk { name : jsstring; content : list N }.
End File.

(** An error object as the handler uses it: only [message] is read, and it
    may be missing ([None] is [undefined]). *)
Module JsError.
Record t := mk { message : option jsstring }.
End JsError.

(** A row of the table [entries] as the backend returns it.  [created_at]
    is the instant the backend stamped, which the page never inspects. *)
Module Entry.
Record t := mk {
  id : jsstring;
  country_code : jsstring;
  title : option jsstring;
  info : option jsstring;
  image_url : option jsstring;
  audio_url : option jsstring;
  created_at : Z
}.
End Entry.

Inductive Bucket := images | audio.

(** Values put into the object literal given to [insert]. *)
Inductive JsValue :=
| JNull
| JStr (s : jsstring).

(** [s || null]. *)
Definition or_null (s : jsstring) : JsValue :=
  match s with
  | [] => JNull
  | _ :: _ => JStr s
  end.

(** The client library answers [{ data, error }] with exactly one of the two
    set for a storage upload; [handleUpload] relies on it when it reads
    [imgData.path] right after the error test. *)
Inductive upload_response :=
| UploadOk (path : jsstring)
| UploadErr (e : JsError.t).

(** The answer of a [select]: rows, an error (then [data] is [null]), or
    neither.  The code reads the two fields independently. *)
Inductive select_response :=
| SelectRows (rows : list Entry.t)
| SelectErr (e : JsError.t)
| SelectNothing.

Definition data_of (r : select_response) : option (list Entry.t) :=
  match r with
  | SelectRows rows => Some rows
  | SelectErr _ | SelectNothing => None
  end.

Definition error_of (r : select_response) : option JsError.t :=
  match r with
  | SelectErr e => Some e
  | SelectRows _ | SelectNothing => None
  end.

(** [data || []]: an array is truthy even when empty. *)
Definition or_empty (d : option (list Entry.t)) : list Entry.t :=
  match d with
  | Some rows => rows
  | None => []
  end.

(** The configured client ([createClient(...)]).  [getPublicUrl] is the
    library's local computation of an object's address, no request. *)
Record Client := { getPublicUrl : Bucket → jsstring → jsstring }.

(** ** Effects *)

(** Requests the client library can send.  [StorageRemove] is the library's
    delete; the page has no call site for it, it is listed so that traces
    can be said to contain none. *)
Inductive call :=
| StorageUpload (bucket : Bucket) (path : jsstring) (file : File.t)
    (cacheControl : string) (upsert : bool)
| StorageRemove (bucket : Bucket) (paths : list jsstring)
| DbInsert (table : string) (row : gmap string JsValue)
| DbSelect (table : string) (columns : string) (orderBy : string) (ascending : bool).

Inductive event :=
| PreventDefault
| GenUuid (id : jsstring)
| Net (c : call)
| ConsoleError (e : JsError.t).

(** The component's [useState] cells. *)
Record UI := mkUI {
  entries : list Entry.t;
  loading : bool;
  activeCountry : option Country.t;
  showForm : bool;
  uploading : bool;
  title : jsstring;
  info : jsstring;
  imageFile : option File.t;
  audioFile : option File.t;
  error : jsstring
}.

(** [useState]'s initial values (App.jsx 57-66). *)
Definition initialUI : UI :=
  mkUI [] true None false false [] [] None None [].

(** What the outside answers during one run: the module-level client
    ([null] without configuration), the identifier [uuidv4()] yields, the
    answer to each request should it be sent, and the value of the effect's
    [ignore] variable when the awaited query of [load] resumes. *)
Record Env := mkEnv {
  supabase : option Client;
  uuid : jsstring;
  upload_result : Bucket → upload_response;
  insert_result : option JsError.t;
  select_result : select_response;
  ignore : bool
}.

Record World := mkWorld { ui : UI; trace : list event }.

(** Computations that read the environment, change the world and either
    complete with a value or throw; the world survives a throw. *)
Definition M (A : Type) : Type := Env → World → (JsError.t + A) * World.

#[global] Instance M_ret : MRet M := λ A a _ w, (inr a, w).

#[global] Instance M_bind : MBind M := λ A B f m env w,
  match m env w with
  | (inl e, w') => (inl e, w')
  | (inr a, w') => f a env w'
  end.

Definition throw {A} (e : JsError.t) : M A := λ _ w, (inl e, w).

(** [try { body } catch (err) { handler err } finally { final }]. *)
Definition try_catch_finally (body : M unit) (handler : JsError.t → M unit)
    (final : M unit) : M unit := λ env w,
  let '(r1, w1) := body env w in
  let '(r2, w2) := match r1 with
                   | inl e => handler e env w1
                   | inr _ => (r1, w1)
                   end in
  let '(r3, w3) := final env w2 in
  match r3 with
  | inl e => (inl e, w3)
  | inr _ => (r2, w3)
  end.

Definition asks {A} (f : Env → A) : M A := λ env w, (inr (f env), w).

Definition emit (ev : event) : M unit := λ _ w,
  (inr (), mkWorld (ui w) (trace w ++ [ev])).

Definition update (f : UI → UI) : M unit := λ _ w,
  (inr (), mkWorld (f (ui w)) (trace w)).

(** The setters of the [useState] cells. *)
Definition with_entries (v : list Entry.t) (s : UI) : UI :=
  mkUI v (loading s) (activeCountry s) (showForm s) (uploading s)
    (title s) (info s) (imageFile s) (audioFile s) (error s).
Definition with_loading (v : bool) (s : UI) : UI :=
  mkUI (entries s) v (activeCountry s) (showForm s) (uploading s)
    (title s) (info s) (imageFile s) (audioFile s) (error s).
Definition with_activeCountry (v : option Country.t) (s : UI) : UI :=
  mkUI (entries s) (loading s) v (showForm s) (uploading s)
    (title s) (info s) (imageFile s) (audioFile s) (error s).
Definition with_showForm (v : bool) (s : UI) : UI :=
  mkUI (entries s) (loading s) (activeCountry s) v (uploading s)
    (title s) (info s) (imageFile s) (audioFile s) (error s).
Definition with_uploading (v : bool) (s : UI) : UI :=
  mkUI (entries s) (loading s) (activeCountry s) (showForm s) v
    (title s) (info s) (imageFile s) (audioFile s) (error s).
Definition with_title (v : jsstring) (s : UI) : UI :=
  mkUI (entries s) (loading s) (activeCountry s) (showForm s) (uploading s)
    v (info s) (imageFile s) (audioFile s) (error s).
Definition with_info (v : jsstring) (s : UI) : UI :=
  mkUI (entries s) (loading s) (activeCountry s) (showForm s) (uploading s)
    (title s) v (imageFile s) (audioFile s) (error s).
Definition with_imageFile (v : option File.t) (s : UI) : UI :=
  mkUI (entries s) (loading s) (activeCountry s) (showForm s) (uploading s)
    (title s) (info s) v (audioFile s) (error s).
Definition with_audioFile (v : option File.t) (s : UI) : UI :=
  mkUI (entries s) (loading s) (activeCountry s) (showForm s) (uploading s)
    (title s) (info s) (imageFile s) v (error s).
Definition with_error (v : jsstring) (s : UI) : UI :=
  mkUI (entries s) (loading s) (activeCountry s) (showForm s) (uploading s)
    (title s) (info s) (imageFile s) (audioFile s) v.

Definition setEntries (v : list Entry.t) : M unit := update (with_entries v).
Definition setLoading (v : bool) : M unit := update (with_loading v).
Definition setActiveCountry (v : option Country.t) : M unit := update (with_activeCountry v).
Definition setShowForm (v : bool) : M unit := update (with_showForm v).
Definition setUploading (v : bool) : M unit := update (with_uploading v).
Definition setTitle (v : jsstring) : M unit := update (with_title v).
Definition setInfo (v : jsstring) : M unit := update (with_info v).
Definition setImageFile (v : option File.t) : M unit := update (with_imageFile v).
Definition setAudioFile (v : option File.t) : M unit := update (with_audioFile v).
Definition setError (v : jsstring) : M unit := update (with_error v).

(** [uuidv4()]. *)
Definition uuidv4 : M jsstring :=
  id ← asks uuid; emit (GenUuid id);; mret id.

(** [console.error(e)]. *)
Definition console_error (e : JsError.t) : M unit := emit (ConsoleError e).

(** [await supabase.storage.from(bucket).upload(path, file,
    { cacheControl, upsert })]. *)
Definition storage_upload (bucket : Bucket) (path : jsstring) (file : File.t)
    (cacheControl : string) (upsert : bool) : M upload_response :=
  emit (Net (StorageUpload bucket path file cacheControl upsert));;
  asks (λ env, upload_result env bucket).

(** [await supabase.from(table).insert(row)], of which only [error] is
    read. *)
Definition db_insert (table : string) (row : gmap string JsValue) : M (option JsError.t) :=
  emit (Net (DbInsert table row));;
  asks insert_result.

(** [await supabase.from(table).select(columns).order(orderBy,
    { ascending })]. *)
Definition db_select (table columns orderBy : string) (ascending : bool) : M select_response :=
  emit (Net (DbSelect table columns orderBy ascending));;
  asks select_result.

(** ** The component *)

(** The three texts of the precondition tests and the fallback of the
    [catch] block; "ä" is the unit 228. *)
Definition msg_not_configured : jsstring := str "Supabase ist nicht konfiguriert.".
Definition msg_no_country : jsstring :=
  str "Bitte zuerst ein Land ausw" ++ [228] ++ str "hlen.".
Definition msg_missing_files : jsstring :=
  str "Bitte Bild (2:3) und MP3 ausw" ++ [228] ++ str "hlen.".
Definition msg_upload_failed : jsstring := str "Upload fehlgeschlagen.".

(** App.jsx 69-82, the body of [load()] inside the mount effect. *)
Definition load : M unit :=
  sb ← asks supabase;
  match sb with
  | None => setLoading false
  | Some _ =>
      r ← db_select "entries" "*" "created_at" false;
      ign ← asks ignore;
      if negb ign then
        match error_of r with
        | Some e => console_error e
        | None => mret ()
        end;;
        setEntries (or_empty (data_of r));;
        setLoading false
      else mret ()
  end.

(** App.jsx 85-88, the memoised view. *)
Definition countryEntries (entries : list Entry.t)
    (activeCountry : option Country.t) : list Entry.t :=
  match activeCountry with
  | None => []
  | Some c => filter (λ e, Entry.country_code e = Country.code c) entries
  end.

(** App.jsx 90-137.  [s] is the render's state the handler closes over:
    every read goes to it, every setter to the world. *)
Definition handleUpload (s : UI) : M unit :=
  emit PreventDefault;;
  setError empty;;
  sb ← asks supabase;
  match sb with
  | None => setError msg_not_configured
  | Some client =>
  match activeCountry s with
  | None => setError msg_no_country
  | Some country =>
  match imageFile s, audioFile s with
  | Some image, Some sound =>
      setUploading true;;
      try_catch_finally
        (id ← uuidv4;
         let base := safeName (Country.code country ++ str "-"
                       ++ or_str (title s) (str "upload") ++ str "-" ++ id) in
         img ← storage_upload images
                 (base ++ str "."
                    ++ or_undef (pop (split (ch ".") (File.name image))) (str "jpg"))
                 image "3600" false;
         match img with
         | UploadErr imgErr => throw imgErr
         | UploadOk imgPath =>
         let imgPublic := getPublicUrl client images imgPath in
         aud ← storage_upload audio
                 (base ++ str "."
                    ++ or_undef (pop (split (ch ".") (File.name sound))) (str "mp3"))
                 sound "3600" false;
         match aud with
         | UploadErr audErr => throw audErr
         | UploadOk audPath =>
         let audPublic := getPublicUrl client audio audPath in
         dbErr ← db_insert "entries"
                   {[ "country_code" := JStr (Country.code country);
                      "title" := or_null (title s);
                      "info" := or_null (info s);
                      "image_url" := JStr imgPublic;
                      "audio_url" := JStr audPublic ]};
         match dbErr with
         | Some e => throw e
         | None =>
             setTitle empty;; setInfo empty;;
             setImageFile None;; setAudioFile None;;
             refreshed ← db_select "entries" "*" "created_at" false;
             setEntries (or_empty (data_of refreshed));;
             setShowForm false
         end end end)
        (λ err,
           console_error err;;
           setError (or_undef (JsError.message err) msg_upload_failed))
        (setUploading false)
  | _, _ => setError msg_missing_files
  end end end.

(** One submit: the handler run on the state it was rendered with. *)
Definition submit (env : Env) (s : UI) : World :=
  snd (handleUpload s env (mkWorld s [])).

(** One mount: [load] run on a state. *)
Definition mount (env : Env) (s : UI) : World :=
  snd (load env (mkWorld s [])).

(** App.jsx 162-171, the map callback's [code] and [name] for a feature
    with property bag [properties], and the object a click stores. *)
Module Geography.
Definition prop (properties : gmap string jsstring) (key : string) : option jsstring :=
  properties !! key.

(** [a || b] between two property reads, either of which may be
    [undefined]. *)
Definition or_prop (a b : option jsstring) : option jsstring :=
  match a with
  | Some (_ :: _) => a
  | _ => b
  end.

Definition code (properties : gmap string jsstring) : jsstring :=
  or_undef (or_prop (prop properties "ISO_A2_EH") (prop properties "ISO_A2"))
    empty.

Definition name (properties : gmap string jsstring) : jsstring :=
  or_undef
    (or_prop (or_prop (prop properties "NAME") (prop properties "ADMIN"))
       (prop properties "NAME_LONG"))
    (str "Unbenannt").

Definition onClick (properties : gmap string jsstring) : Country.t :=
  Country.mk (code properties) (name properties).
End Geography.

(** ** Reading a run *)

Definition net_calls (t : list event) : list call :=
  omap (λ ev, match ev with Net c => Some c | _ => None end) t.


Definition console_errors (t : list event) : list JsError.t :=
  omap (λ ev, match ev with ConsoleError e => Some e | _ => None end) t.


Definition uploads (t : list event) : list (Bucket * jsstring) :=
  omap (λ c, match c with
             | StorageUpload b p _ _ _ => Some (b, p)
             | _ => None
             end) (net_calls t).

Definition inserted_rows (t : list event) : list (gmap string JsValue) :=
  omap (λ c, match c with DbInsert _ row => Some row | _ => None end) (net_calls t).

(** The four fields of the form. *)
Definition form_fields (s : UI) : jsstring * jsstring * option File.t * option File.t :=
  (title s, info s, imageFile s, audioFile s).

(** The base name and the extension as [handleUpload] builds them, and the
    requests it sends with them. *)
Definition base_name (country : Country.t) (title id : jsstring) : jsstring :=
  safeName (Country.code country ++ str "-" ++ or_str title (str "upload")
              ++ str "-" ++ id).

Definition extension (f : File.t) (fallback : jsstring) : jsstring :=
  or_undef (pop (split (ch ".") (File.name f))) fallback.

Definition object_name (country : Country.t) (title id : jsstring)
    (f : File.t) (fallback : jsstring) : jsstring :=
  base_name country title id ++ str "." ++ extension f fallback.

Definition image_call (country : Country.t) (title id : jsstring) (f : File.t) : call :=
  StorageUpload images (object_name country title id f (str "jpg")) f "3600" false.

Definition audio_call (country : Country.t) (title id : jsstring) (f : File.t) : call :=
  StorageUpload audio (object_name country title id f (str "mp3")) f "3600" false.

Definition new_row (client : Client) (country : Country.t) (title info : jsstring)
    (imgPath audPath : jsstring) : gmap string JsValue :=
  {[ "country_code" := JStr (Country.code country);
     "title" := or_null title;
     "info" := or_null info;
     "image_url" := JStr (getPublicUrl client images imgPath);
     "audio_url" := JStr (getPublicUrl client audio audPath) ]}.

Definition select_call : call := DbSelect "entries" "*" "created_at" false.

(** ** The spec's wording, for comparison with the code *)

(** Lowercase letters, digits, "-", "_" and ".". *)
Definition is_lower_letter (u : N) : bool := (ch "a" <=? u) && (u <=? ch "z").
Definition is_digit (u : N) : bool := (ch "0" <=? u) && (u <=? ch "9").
Definition allowed_unit (u : N) : bool :=
  is_lower_letter u || is_digit u || (u =? ch "-") || (u =? ch "_") || (u =? ch ".").

(** "Lowercase, then replace every disallowed character with '-'". *)
Definition safeName_spec (s : jsstring) : jsstring :=
  map (λ u, if allowed_unit u then u else ch "-") (toLowerCase s).

(** "First non-empty value among an ordered list of keys", with the
    placeholder for the case that every candidate is empty. *)
Fixpoint first_nonempty (keys : list string) (properties : gmap string jsstring)
    (placeholder : jsstring) : jsstring :=
  match keys with
  | [] => placeholder
  | k :: ks =>
      match properties !! k with
      | Some (u :: v) => u :: v
      | _ => first_nonempty ks properties placeholder
      end
  end.

(** [r] keeps, in order, exactly the elements of [l] that satisfy [P]. *)
Inductive selects {A} (P : A → Prop) : list A → list A → Prop :=
| selects_nil : selects P [] []
| selects_keep x l r : P x → selects P l r → selects P (x :: l) (x :: r)
| selects_drop x l r : ¬ P x → selects P l r → selects P (x :: l) r.

(** The preconditions of a submit, in the order of section 4.3. *)
Inductive precondition := Configured | CountrySelected | FilesPresent.

Definition holds (env : Env) (s : UI) (p : precondition) : bool :=
  match p with
  | Configured => bool_decide (is_Some (supabase env))
  | CountrySelected => bool_decide (is_Some (activeCountry s))
  | FilesPresent =>
      bool_decide (is_Some (imageFile s)) && bool_decide (is_Some (audioFile s))
  end.

Definition message_of (p : precondition) : jsstring :=
  match p with
  | Configured => msg_not_configured
  | CountrySelected => msg_no_country
  | FilesPresent => msg_missing_files
  end.

Definition first_violated (env : Env) (s : UI) : option precondition :=
  List.find (λ p, negb (holds env s p)) [Configured; CountrySelected; FilesPresent].

(** The three network steps, and the first of them the environment fails. *)
Inductive step := ImageUpload | AudioUpload | RowInsert.

Definition first_failure (env : Env) : option (step * JsError.t) :=
  match upload_result env images with
  | UploadErr e => Some (ImageUpload, e)
  | UploadOk _ =>
      match upload_result env audio with
      | UploadErr e => Some (AudioUpload, e)
      | UploadOk _ =>
          match insert_result env with
          | Some e => Some (RowInsert, e)
          | None => None
          end
      end
  end.

Inductive outcome :=
| Rejected (p : precondition)
| Failed (st : step) (e : JsError.t)
| Completed.

Definition outcome_of (env : Env) (s : UI) : outcome :=
  match first_violated env s with
  | Some p => Rejected p
  | None =>
      match first_failure env with
      | Some (st, e) => Failed st e
      | None => Completed
      end
  end.



(** Newest first. *)
Definition newest_first (rows : list Entry.t) : Prop :=
  ∀ i j a b, (i < j)%nat → rows !! i = Some a → rows !! j = Some b →
    (Entry.created_at b <= Entry.created_at a)%Z.

(** The requests of a run that passes the tests, in the order they are
    sent when nothing fails; the row refers to the paths the uploads
    returned. *)
Definition path_of (r : upload_response) : jsstring :=
  match r with
  | UploadOk p => p
  | UploadErr _ => []
  end.

Definition planned_calls (env : Env) (s : UI) (client : Client)
    (country : Country.t) (image sound : File.t) : list call :=
  [image_call country (title s) (uuid env) image;
   audio_call country (title s) (uuid env) sound;
   DbInsert "entries"
     (new_row client country (title s) (info s)
        (path_of (upload_result env images)) (path_of (upload_result env audio)));
   select_call].

Definition position (st : step) : nat :=
  match st with
  | ImageUpload => 1
  | AudioUpload => 2
  | RowInsert => 3
  end.

(** The state a failed run ends in, showing [m]; the state a completed run
    ends in; and the final state by outcome. *)
Definition after_failure (s : UI) (m : jsstring) : UI :=
  mkUI (entries s) (loading s) (activeCountry s) (showForm s) false
    (title s) (info s) (imageFile s) (audioFile s) m.

Definition after_success (env : Env) (s : UI) : UI :=
  mkUI (or_empty (data_of (select_result env))) (loading s)
    (activeCountry s) false false [] [] None None [].

Definition final_ui (env : Env) (s : UI) (o : outcome) : UI :=
  match o with
  | Rejected p => with_error (message_of p) s
  | Failed _ e => after_failure s (or_undef (JsError.message e) msg_upload_failed)
  | Completed => after_success env s
  end.

(** The environment with another answer to the [select]. *)
Definition with_select (r : select_response) (env : Env) : Env :=
  mkEnv (supabase env) (uuid env) (upload_result env) (insert_result env) r
    (ignore env).

(** ** Sample inputs *)

Definition sample_client : Client :=
  {| getPublicUrl := λ b p,
       str "https://demo.supabase.co/storage/v1/object/public/"
       ++ match b with images => str "images/" | audio => str "audio/" end ++ p |}.

Definition sample_id : jsstring := str "1b4e28ba-2fa1-41d2-883f-0016d3cca427".

Definition japan : Country.t := Country.mk (str "JP") (str "Japan").

Definition photo_png : File.t := File.mk (str "photo.png") [137; 80; 78; 71].
Definition song_mp3 : File.t := File.mk (str "song.mp3") [73; 68; 51].
Definition photo_bare : File.t := File.mk (str "photo") [137; 80; 78; 71].
Definition song_bare : File.t := File.mk (str "song") [73; 68; 51].

(** A row as the backend would list it for the sample submission. *)
Definition sample_row : Entry.t :=
  Entry.mk (str "0a0a0a0a-0000-4000-8000-000000000001") (str "JP")
    (Some (str "Song")) None
    (Some (str "https://demo.supabase.co/storage/v1/object/public/images/i.png"))
    (Some (str "https://demo.supabase.co/storage/v1/object/public/audio/a.mp3"))
    1700000000%Z.

(** Every request succeeds. *)
Definition env_ok : Env :=
  mkEnv (Some sample_client) sample_id
    (λ b, match b with images => UploadOk (str "i.png") | audio => UploadOk (str "a.mp3") end)
    None (SelectRows [sample_row]) false.

(** The open form, filled in for Japan. *)
Definition form_filled : UI :=
  mkUI [] false (Some japan) true false (str "Song") (str "A tune.")
    (Some photo_png) (Some song_mp3) [].



(** The insert is refused with a message. *)
Definition rls_error : JsError.t :=
  JsError.mk (Some (str "new row violates row-level security policy")).

Definition env_insert_refused : Env :=
  mkEnv (Some sample_client) sample_id
    (λ b, match b with images => UploadOk (str "i.png") | audio => UploadOk (str "a.mp3") end)
    (Some rls_error) (SelectRows [sample_row]) false.

(** The mount effect was cleaned up before the failing query answered. *)
Definition env_cleaned_up : Env :=
  mkEnv (Some sample_client) sample_id (λ _, UploadOk (str "x"))
    None (SelectErr rls_error) true.

(** The query fails while the component is mounted. *)
Definition env_query_fails : Env :=
  mkEnv (Some sample_client) sample_id (λ _, UploadOk (str "x"))
    None (SelectErr rls_error) false.

(** The form with two files whose names have no dot. *)
Definition form_bare : UI :=
  mkUI [] false (Some japan) true false (str "Song") (str "A tune.")
    (Some photo_bare) (Some song_bare) [].

(** A store with entries for "DE", "FR", "DE", newest first. *)
Definition entry_de_new : Entry.t :=
  Entry.mk (str "0a0a0a0a-0000-4000-8000-000000000003") (str "DE")
    (Some (str "Lied")) None None None 1700000300%Z.
Definition entry_fr : Entry.t :=
  Entry.mk (str "0a0a0a0a-0000-4000-8000-000000000002") (str "FR")
    (Some (str "Chanson")) None None None 1700000200%Z.
Definition entry_de_old : Entry.t :=
  Entry.mk (str "0a0a0a0a-0000-4000-8000-000000000001") (str "DE")
    None (Some (str "Ohne Titel")) None None 1700000100%Z.

Definition germany : Country.t := Country.mk (str "DE") (str "Germany").

(** ** The rest of the component *)

(** App.jsx 36-38 and 146-150: the two settings, the module-level client
    and the badge of the header.  [createClient] is the client library's
    constructor. *)
Module Config.
Record t := mk {
  VITE_SUPABASE_URL : option jsstring;
  VITE_SUPABASE_ANON_KEY : option jsstring
}.

Definition SUPABASE_URL (e : t) : jsstring := or_undef (VITE_SUPABASE_URL e) empty.
Definition SUPABASE_ANON_KEY (e : t) : jsstring :=
  or_undef (VITE_SUPABASE_ANON_KEY e) empty.

(** A string is truthy when it is not empty. *)
Definition truthy (v : jsstring) : bool :=
  match v with
  | [] => false
  | _ :: _ => true
  end.

Definition supabase (createClient : jsstring → jsstring → Client) (e : t) : option Client :=
  if truthy (SUPABASE_URL e) && truthy (SUPABASE_ANON_KEY e)
  then Some (createClient (SUPABASE_URL e) (SUPABASE_ANON_KEY e))
  else None.

Definition badge (e : t) : jsstring :=
  if negb (truthy (SUPABASE_URL e)) || negb (truthy (SUPABASE_ANON_KEY e))
  then str "Hinweis: Supabase Variablen fehlen"
  else str "Verbunden".
End Config.

(** [String.fromCodePoint(cp)]: one unit up to U+FFFF, a surrogate pair up
    to U+10FFFF, a RangeError ([None]) above. *)
Definition fromCodePoint (cp : N) : option jsstring :=
  if cp <=? 65535 then Some [cp]
  else if cp <=? 1114111
       then Some [55296 + (cp - 65536) / 1024; 56320 + (cp - 65536) mod 1024]
       else None.

(** [s.split("")]: one string per unit. *)
Definition split_units (s : jsstring) : list jsstring := map (λ u, [u]) s.

(** [c.charCodeAt(i)]; [None] is NaN. *)
Definition charCodeAt (c : jsstring) (i : nat) : option N := c !! i.

(** [chars.join("")]. *)
Definition join_empty (chars : list jsstring) : jsstring := concat chars.

Section Flag.
(** [String.prototype.toUpperCase] of the host. *)
Variable toUpperCase : jsstring → jsstring.

(** App.jsx 44-49.  The argument may be [null] or [undefined] ([None]);
    the result is [None] when [String.fromCodePoint] throws. *)
Definition flagEmojiFromISO2 (code : option jsstring) : option jsstring :=
  match code with
  | None => Some empty
  | Some c =>
      if negb (Config.truthy c) || negb (length c =? 2)%nat then Some empty
      else
        let base := 127397 in
        chars ← mapM (λ x, match charCodeAt x 0 with
                           | Some u => fromCodePoint (base + u)
                           | None => None
                           end)
                     (split_units (toUpperCase c));
        Some (join_empty chars)
  end.
End Flag.

(** Upper-casing of ASCII, the part of the host's [toUpperCase] that country
    codes use. *)
Definition upper_ascii (u : N) : N :=
  if (ch "a" <=? u) && (u <=? ch "z") then u - 32 else u.

Definition is_ascii_letter (u : N) : bool :=
  ((ch "A" <=? u) && (u <=? ch "Z")) || ((ch "a" <=? u) && (u <=? ch "z")).

(** Strings of 16-bit units. *)
Definition well_formed (s : jsstring) : Prop := Forall (λ u, u < 65536) s.

(** Reading a string of surrogate pairs back as code points; [None] when a
    unit is not part of a pair. *)
Fixpoint astral_code_points (s : jsstring) : option (list N) :=
  match s with
  | [] => Some []
  | hi :: lo :: r =>
      if (55296 <=? hi) && (hi <=? 56319) && (56320 <=? lo) && (lo <=? 57343)
      then cps ← astral_code_points r;
           Some (65536 + (hi - 55296) * 1024 + (lo - 56320) :: cps)
      else None
  | [_] => None
  end.

(** The regional indicator symbols U+1F1E6..U+1F1FF. *)
Definition regional_indicator (cp : N) : bool := (127462 <=? cp) && (cp <=? 127487).

(** App.jsx 173: [activeCountry?.code === code]. *)
Definition isActive (activeCountry : option Country.t) (code : jsstring) : bool :=
  match activeCountry with
  | None => false
  | Some c => bool_decide (Country.code c = code)
  end.

(** [e.target.files?.[0] || null]. *)
Definition first_file (files : option (list File.t)) : option File.t :=
  match files with
  | None => None
  | Some l => head l
  end.

(** The handlers attached in the markup, and what enables each control. *)
Inductive action :=
| ClickGeography (properties : gmap string jsstring)
| ClickAdd
| ClickClose
| ChangeTitle (value : jsstring)
| ChangeInfo (value : jsstring)
| ChangeImage (files : option (list File.t))
| ChangeAudio (files : option (list File.t))
| Submit
| Mount.

(** App.jsx 178, 212, 278 and 311, 285, 305, 291, 299, 280, 80. *)
Definition handler (a : action) (s : UI) : M unit :=
  match a with
  | ClickGeography properties =>
      setActiveCountry (Some (Country.mk (Geography.code properties)
                                         (Geography.name properties)))
  | ClickAdd => setShowForm true
  | ClickClose => setShowForm false
  | ChangeTitle value => setTitle value
  | ChangeInfo value => setInfo value
  | ChangeImage files => setImageFile (first_file files)
  | ChangeAudio files => setAudioFile (first_file files)
  | Submit => handleUpload s
  | Mount => load
  end.


(** One event: its handler run to completion on the rendered state. *)
Definition perform (a : action) (env : Env) (s : UI) : UI :=
  ui (snd (handler a s env (mkWorld s []))).


(** A host upper-casing for sample runs: exact on ASCII strings. *)
Definition toUpperCase_ascii (s : jsstring) : jsstring := map upper_ascii s.

(** No settings: there is no client. *)
Definition env_unconfigured : Env :=
  mkEnv None sample_id (λ _, UploadOk (str "x")) None (SelectRows [sample_row]) false.

(** A property bag with a name but no country code, as some features of
    the map have, and the page after a click on it and on the add button. *)
Definition bag_without_code : gmap string jsstring := {[ "NAME"%string := str "N. Cyprus" ]}.



(** A request that neither deletes nor overwrites a stored object. *)
Definition keeps_objects (c : call) : bool :=
  match c with
  | StorageUpload _ _ _ _ upsert => negb upsert
  | StorageRemove _ _ => false
  | DbInsert _ _ | DbSelect _ _ _ _ => true
  end.

(** A sequence of events, each with the answers of the outside during it,
    and the property bag of the last click on the map among them. *)
Definition perform_all (l : list (action * Env)) (s : UI) : UI :=
  fold_left (λ s '(a, env), perform a env s) l s.

Fixpoint last_click (l : list (action * Env)) : option (gmap string jsstring) :=
  match l with
  | [] => None
  | (a, _) :: r =>
      match last_click r with
      | Some properties => Some properties
      | None => match a with
                | ClickGeography properties => Some properties
                | _ => None
                end
      end
  end.

(** Lower-casing of ASCII, A-Z to a-z, and what [safeName] makes of one
    unit, both said without the model of the host's [toLowerCase]: an ASCII
    unit is lower-cased and kept when it is allowed; U+0130 gives "i" and a
    hyphen, the Kelvin sign "k"; every other unit gives one hyphen. *)
Definition ascii_lower (u : N) : N :=
  if (ch "A" <=? u) && (u <=? ch "Z") then u + 32 else u.

Definition safe_unit (u : N) : jsstring :=
  if u <? 128 then [if allowed_unit (ascii_lower u) then ascii_lower u else ch "-"]
  else if u =? 304 then [ch "i"; ch "-"]
  else if u =? 8490 then [ch "k"]
  else [ch "-"].

(** * Properties *)

(** ** Run equations of [submit] and [mount] *)

(** Expose the fields of the environment and of the state, so that the
    hypotheses about them can be substituted and the run evaluated. *)
Ltac expose env s :=
  destruct env as [sb uid up ins sel ign];
  destruct s as [es ld ac sf upl ti inf imf auf err];
  cbn [supabase uuid upload_result insert_result select_result ignore
       entries loading activeCountry showForm uploading title info
       imageFile audioFile error] in *.

Lemma submit_not_configured env s :
  supabase env = None →
  submit env s = mkWorld (with_error msg_not_configured s) [PreventDefault].
Proof. expose env s. intros ->. reflexivity. Qed.

Lemma submit_no_country env s client :
  supabase env = Some client → activeCountry s = None →
  submit env s = mkWorld (with_error msg_no_country s) [PreventDefault].
Proof. expose env s. intros -> ->. reflexivity. Qed.

Lemma submit_missing_files env s client country :
  supabase env = Some client → activeCountry s = Some country →
  imageFile s = None ∨ audioFile s = None →
  submit env s = mkWorld (with_error msg_missing_files s) [PreventDefault].
Proof.
  expose env s. intros -> -> [-> | ->]; [| destruct imf]; reflexivity.
Qed.

Section Ready.
(** A submit that passes the three tests. *)
Variables (env : Env) (s : UI) (client : Client) (country : Country.t)
  (image sound : File.t).
Hypothesis Hclient : supabase env = Some client.
Hypothesis Hcountry : activeCountry s = Some country.
Hypothesis Himage : imageFile s = Some image.
Hypothesis Hsound : audioFile s = Some sound.

Lemma submit_image_failed e :
  upload_result env images = UploadErr e →
  submit env s =
    mkWorld (after_failure s (or_undef (JsError.message e) msg_upload_failed))
      [PreventDefault; GenUuid (uuid env);
       Net (image_call country (title s) (uuid env) image);
       ConsoleError e].
Proof using Hclient Hcountry Himage Hsound.
  revert Hclient Hcountry Himage Hsound. unfold after_failure.
  expose env s. intros -> -> -> -> Hi.
  unfold submit, handleUpload, try_catch_finally, storage_upload, mbind, M_bind,
    asks; cbn. rewrite Hi. reflexivity.
Qed.

Lemma submit_audio_failed imgPath e :
  upload_result env images = UploadOk imgPath →
  upload_result env audio = UploadErr e →
  submit env s =
    mkWorld (after_failure s (or_undef (JsError.message e) msg_upload_failed))
      [PreventDefault; GenUuid (uuid env);
       Net (image_call country (title s) (uuid env) image);
       Net (audio_call country (title s) (uuid env) sound); ConsoleError e].
Proof using Hclient Hcountry Himage Hsound.
  revert Hclient Hcountry Himage Hsound. unfold after_failure.
  expose env s. intros -> -> -> -> Hi Ha.
  unfold submit, handleUpload, try_catch_finally, storage_upload, mbind, M_bind,
    asks; cbn. rewrite Hi; cbn. rewrite Ha. reflexivity.
Qed.

Lemma submit_insert_failed imgPath audPath e :
  upload_result env images = UploadOk imgPath →
  upload_result env audio = UploadOk audPath →
  insert_result env = Some e →
  submit env s =
    mkWorld (after_failure s (or_undef (JsError.message e) msg_upload_failed))
      [PreventDefault; GenUuid (uuid env);
       Net (image_call country (title s) (uuid env) image);
       Net (audio_call country (title s) (uuid env) sound);
       Net (DbInsert "entries"
              (new_row client country (title s) (info s) imgPath audPath));
       ConsoleError e].
Proof using Hclient Hcountry Himage Hsound.
  revert Hclient Hcountry Himage Hsound. unfold after_failure.
  expose env s. intros -> -> -> -> Hi Ha ->.
  unfold submit, handleUpload, try_catch_finally, storage_upload, mbind, M_bind,
    asks; cbn. rewrite Hi; cbn. rewrite Ha. reflexivity.
Qed.

Lemma submit_completed imgPath audPath :
  upload_result env images = UploadOk imgPath →
  upload_result env audio = UploadOk audPath →
  insert_result env = None →
  submit env s =
    mkWorld (after_success env s)
      [PreventDefault; GenUuid (uuid env);
       Net (image_call country (title s) (uuid env) image);
       Net (audio_call country (title s) (uuid env) sound);
       Net (DbInsert "entries"
              (new_row client country (title s) (info s) imgPath audPath));
       Net select_call].
Proof using Hclient Hcountry Himage Hsound.
  revert Hclient Hcountry Himage Hsound. unfold after_success.
  expose env s. intros -> -> -> -> Hi Ha ->.
  unfold submit, handleUpload, try_catch_finally, storage_upload, mbind, M_bind,
    asks; cbn. rewrite Hi; cbn. rewrite Ha. reflexivity.
Qed.
End Ready.


Lemma first_violated_None env s :
  first_violated env s = None →
  ∃ client country image sound,
    supabase env = Some client ∧ activeCountry s = Some country
    ∧ imageFile s = Some image ∧ audioFile s = Some sound.
Proof.
  expose env s. unfold first_violated, holds; cbn.
  destruct sb, ac, imf, auf; cbn; try discriminate. eauto 10.
Qed.

Lemma first_violated_Some env s p :
  first_violated env s = Some p →
  submit env s = mkWorld (with_error (message_of p) s) [PreventDefault].
Proof.
  unfold first_violated, holds; cbn.
  destruct (supabase env) as [client |] eqn:Hc; cbn.
  - destruct (activeCountry s) as [country |] eqn:Ha; cbn.
    + destruct (imageFile s) eqn:Hi, (audioFile s) eqn:Hs; cbn;
        intros [= <-]; eapply submit_missing_files; eauto.
    + intros [= <-]. eapply submit_no_country; eauto.
  - intros [= <-]. by apply submit_not_configured.
Qed.

(** The state a run ends in, by its outcome. *)
Lemma ui_submit env s : ui (submit env s) = final_ui env s (outcome_of env s).
Proof.
  unfold outcome_of. destruct (first_violated env s) as [p |] eqn:Hv.
  - by rewrite (first_violated_Some _ _ _ Hv).
  - destruct (first_violated_None _ _ Hv) as (client & country & image & sound & H1 & H2 & H3 & H4).
    unfold first_failure.
    destruct (upload_result env images) as [ip | e] eqn:Hi.
    + destruct (upload_result env audio) as [ap | e] eqn:Ha.
      * destruct (insert_result env) as [e |] eqn:Hd.
        -- by erewrite submit_insert_failed.
        -- by erewrite submit_completed.
      * by erewrite submit_audio_failed.
    + by erewrite submit_image_failed.
Qed.

(** ** Preconditions of a submit *)




(** ** Failing steps *)




(** ** The form after a submit *)

(** The handler never throws to its caller: the [catch] block takes every
    error of the three steps. *)
Lemma handleUpload_returns env s w : fst (handleUpload s env w) = inr ().
Proof.
  destruct w as [s0 t0]. expose env s.
  unfold handleUpload, try_catch_finally, storage_upload, mbind, M_bind, asks; cbn.
  destruct sb, ac, imf, auf; try reflexivity; cbn.
  destruct (up images); [| reflexivity]; cbn.
  destruct (up audio); [| reflexivity]; cbn.
  destruct ins; reflexivity.
Qed.

Lemma message_of_nonempty p : message_of p ≠ [].
Proof. by destruct p. Qed.

Lemma or_undef_fallback_nonempty o : or_undef o msg_upload_failed ≠ [].
Proof. by destruct o as [[| ? ?] |]. Qed.

(** C9.  A submit that fails, by a violated precondition or by a failing
    image upload, audio upload or row insert, leaves title, info and the two
    selected files as they were at entry and does not touch [showForm], so an
    open form stays open, now showing an error text; a submit that
    completes clears the four fields and closes the form; hence the fields
    change only when the row insert was sent and succeeded. *)
Theorem form_kept_on_failure :
  (∀ env s, outcome_of env s ≠ Completed →
     form_fields (ui (submit env s)) = form_fields s
     ∧ showForm (ui (submit env s)) = showForm s
     ∧ error (ui (submit env s)) ≠ [])
  ∧ (∀ env s, outcome_of env s = Completed →
       form_fields (ui (submit env s)) = ([], [], None, None)
       ∧ showForm (ui (submit env s)) = false)
  ∧ (∀ env s, form_fields (ui (submit env s)) ≠ form_fields s →
       insert_result env = None ∧ inserted_rows (trace (submit env s)) ≠ []).
Proof.
  assert (Hfail : ∀ env s, outcome_of env s ≠ Completed →
     form_fields (ui (submit env s)) = form_fields s
     ∧ showForm (ui (submit env s)) = showForm s
     ∧ error (ui (submit env s)) ≠ []).
  { intros env s Ho. rewrite ui_submit.
    destruct (outcome_of env s) as [p | st e |]; [| | done]; cbn.
    - split_and!; [done | done | apply message_of_nonempty].
    - split_and!; [done | done | apply or_undef_fallback_nonempty]. }
  split_and!.
  - exact Hfail.
  - intros env s Ho. rewrite ui_submit, Ho. done.
  - intros env s Hch.
    destruct (outcome_of env s) as [p | st e |] eqn:Ho.
    + destruct (Hfail env s) as (? & _); [by rewrite Ho | done].
    + destruct (Hfail env s) as (? & _); [by rewrite Ho | done].
    + unfold outcome_of in Ho.
      destruct (first_violated env s) as [p |] eqn:Hv; [discriminate |].
      destruct (first_violated_None _ _ Hv)
        as (client & country & image & sound & H1 & H2 & H3 & H4).
      unfold first_failure in Ho.
      destruct (upload_result env images) as [ip | ?] eqn:Hi; [| discriminate].
      destruct (upload_result env audio) as [ap | ?] eqn:Ha; [| discriminate].
      destruct (insert_result env) eqn:Hd; [discriminate |].
      split; [reflexivity |]. by erewrite submit_completed.
Qed.

Lemma form_kept_on_failure_witness :
  form_fields (ui (submit env_insert_refused form_filled)) = form_fields form_filled
  ∧ showForm (ui (submit env_insert_refused form_filled)) = true.
Proof.
  destruct (proj1 form_kept_on_failure env_insert_refused form_filled) as (H1 & H2 & _).
  - intros H. vm_compute in H. discriminate H.
  - split; [exact H1 | exact H2].
Defined.

(** ** The refresh after an insert *)

Lemma submit_with_select env s r r' :
  data_of r = data_of r' →
  submit (with_select r env) s = submit (with_select r' env) s.
Proof.
  intros Hd. unfold with_select. expose env s.
  unfold submit, handleUpload, try_catch_finally, storage_upload, db_select, mbind,
    M_bind, asks; cbn.
  destruct sb, ac, imf, auf; try reflexivity; cbn.
  destruct (up images); [| reflexivity]; cbn.
  destruct (up audio); [| reflexivity]; cbn.
  destruct ins; [reflexivity |].
  destruct r, r'; cbn in Hd; simplify_eq; reflexivity.
Qed.

(** C10.  When the three steps have succeeded and the refresh query
    answers without data, because it failed or because it returned none,
    the submit still ends as a success: the fields are cleared, the form is
    closed, no error text is set, nothing is logged and nothing is thrown,
    while the entries become the empty list.  The outcome of any submit
    depends on the refresh answer through its data alone, never through its
    error. *)
Theorem refresh_error_ignored :
  (∀ env s, outcome_of env s = Completed → data_of (select_result env) = None →
     ui (submit env s)
       = mkUI [] (loading s) (activeCountry s) false false [] [] None None []
     ∧ console_errors (trace (submit env s)) = []
     ∧ last (net_calls (trace (submit env s))) = Some select_call
     ∧ fst (handleUpload s env (mkWorld s [])) = inr ())
  ∧ (∀ env s r r', data_of r = data_of r' →
       submit (with_select r env) s = submit (with_select r' env) s).
Proof.
  split; [| apply submit_with_select].
  intros env s Ho Hd. split_and!.
  - rewrite ui_submit, Ho. cbn. unfold after_success. by rewrite Hd.
  - unfold outcome_of in Ho.
    destruct (first_violated env s) as [p |] eqn:Hv; [discriminate |].
    destruct (first_violated_None _ _ Hv)
      as (client & country & image & sound & H1 & H2 & H3 & H4).
    unfold first_failure in Ho.
    destruct (upload_result env images) as [ip | ?] eqn:Hi; [| discriminate].
    destruct (upload_result env audio) as [ap | ?] eqn:Ha; [| discriminate].
    destruct (insert_result env) eqn:Hins; [discriminate |].
    by erewrite submit_completed.
  - unfold outcome_of in Ho.
    destruct (first_violated env s) as [p |] eqn:Hv; [discriminate |].
    destruct (first_violated_None _ _ Hv)
      as (client & country & image & sound & H1 & H2 & H3 & H4).
    unfold first_failure in Ho.
    destruct (upload_result env images) as [ip | ?] eqn:Hi; [| discriminate].
    destruct (upload_result env audio) as [ap | ?] eqn:Ha; [| discriminate].
    destruct (insert_result env) eqn:Hins; [discriminate |].
    by erewrite submit_completed.
  - apply handleUpload_returns.
Qed.

Lemma refresh_error_ignored_witness :
  ui (submit (with_select (SelectErr rls_error) env_ok) form_filled)
  = mkUI [] false (Some japan) false false [] [] None None [].
Proof.
  exact (proj1 (proj1 refresh_error_ignored
    (with_select (SelectErr rls_error) env_ok) form_filled eq_refl eq_refl)).
Defined.

(** ** The initial load *)

Lemma load_returns env w : fst (load env w) = inr ().
Proof.
  destruct w as [s t], env as [sb uid up ins sel ign].
  unfold load, db_select, mbind, M_bind, asks; cbn.
  destruct sb; [| reflexivity]. destruct ign; [reflexivity |]; cbn.
  destruct (error_of sel); reflexivity.
Qed.

Lemma mount_not_configured env s :
  supabase env = None → mount env s = mkWorld (with_loading false s) [].
Proof. expose env s. intros ->. reflexivity. Qed.

Lemma mount_ignored env s client :
  supabase env = Some client → ignore env = true →
  mount env s = mkWorld s [Net select_call].
Proof. expose env s. intros -> ->. reflexivity. Qed.

Lemma mount_applied env s client :
  supabase env = Some client → ignore env = false →
  mount env s =
    mkWorld (with_loading false (with_entries (or_empty (data_of (select_result env))) s))
      (Net select_call :: match error_of (select_result env) with
                          | Some e => [ConsoleError e]
                          | None => []
                          end).
Proof.
  expose env s. intros -> ->.
  unfold mount, load, db_select, mbind, M_bind, asks; cbn.
  destruct (error_of sel); reflexivity.
Qed.

(** When the effect's cleanup has run before the failing query answers,
    the error is not logged and the loading flag stays set. *)
Lemma dropped_answer_not_logged :
  select_result env_cleaned_up = SelectErr rls_error
  ∧ console_errors (trace (mount env_cleaned_up initialUI)) = []
  ∧ loading (ui (mount env_cleaned_up initialUI)) = true.
Proof. split_and!; reflexivity. Qed.

(** C5, amended.  [load] never throws to its caller.  With a configured
    client, and the effect not cleaned up when the answer arrives, it sends
    the one query "select * from entries order by created_at descending"
    and ends with the loading flag false; on an error it logs the error and
    sets the entries to the empty list; on success it replaces the entries
    by the rows exactly as returned, so newest first when the backend
    honoured the order; every other cell is left as it was.  When the
    cleanup ran first the answer is dropped: nothing is logged and no state
    changes, so a loading flag that was set stays set. *)
Theorem load_fails_open :
  (∀ env w, fst (load env w) = inr ())
  ∧ (∀ env s client, supabase env = Some client → ignore env = false →
       net_calls (trace (mount env s)) = [DbSelect "entries" "*" "created_at" false]
       ∧ loading (ui (mount env s)) = false
       ∧ (∀ e, select_result env = SelectErr e →
            console_errors (trace (mount env s)) = [e]
            ∧ entries (ui (mount env s)) = []
            ∧ ui (mount env s)
              = mkUI [] false (activeCountry s) (showForm s) (uploading s)
                  (title s) (info s) (imageFile s) (audioFile s) (error s))
       ∧ (∀ rows, select_result env = SelectRows rows →
            console_errors (trace (mount env s)) = []
            ∧ entries (ui (mount env s)) = rows
            ∧ ui (mount env s)
              = mkUI rows false (activeCountry s) (showForm s) (uploading s)
                  (title s) (info s) (imageFile s) (audioFile s) (error s)
            ∧ (newest_first rows → newest_first (entries (ui (mount env s))))))
  ∧ (∀ env s client, supabase env = Some client → ignore env = true →
       console_errors (trace (mount env s)) = []
       ∧ ui (mount env s) = s
       ∧ loading (ui (mount env s)) = loading s
       ∧ entries (ui (mount env s)) = entries s).
Proof.
  split_and!.
  - apply load_returns.
  - intros env s client Hc Hi. rewrite (mount_applied _ _ _ Hc Hi). split_and!.
    + by destruct (error_of (select_result env)).
    + reflexivity.
    + by intros e ->.
    + by intros rows ->.
  - intros env s client Hc Hi. by rewrite (mount_ignored _ _ _ Hc Hi).
Qed.

Lemma load_fails_open_witness :
  loading initialUI = true
  ∧ loading (ui (mount env_query_fails initialUI)) = false
  ∧ console_errors (trace (mount env_query_fails initialUI)) = [rls_error]
  ∧ entries (ui (mount env_query_fails initialUI)) = [].
Proof.
  destruct (proj1 (proj2 load_fails_open) env_query_fails initialUI sample_client
              eq_refl eq_refl) as (_ & Hl & He & _).
  destruct (He rls_error eq_refl) as (Hlog & Hentries & _).
  split_and!; [reflexivity | exact Hl | exact Hlog | exact Hentries].
Defined.

(** ** Names of the uploaded objects *)

Section Split.
Variable sep : N.

(** No segment contains the separator. *)
Lemma split_segments s : Forall (λ seg, sep ∉ seg) (split sep s).
Proof.
  induction s as [| u r IH]; cbn.
  - repeat constructor. apply not_elem_of_nil.
  - destruct (N.eqb_spec u sep) as [-> | Hne].
    + constructor; [apply not_elem_of_nil | done].
    + destruct (split sep r) as [| seg segs].
      * repeat constructor. by rewrite list_elem_of_singleton.
      * apply Forall_cons in IH as [Hseg Hsegs].
        constructor; [| done]. rewrite elem_of_cons.
        intros [Heq | Hin]; [by apply Hne | by apply Hseg].
Qed.

(** Without a separator the whole text is the one segment. *)
Lemma split_without_sep s : sep ∉ s → split sep s = [s].
Proof.
  induction s as [| u r IH]; [done |].
  rewrite not_elem_of_cons. intros [Hne Hr]. cbn.
  destruct (N.eqb_spec u sep); [congruence |]. by rewrite IH.
Qed.

(** After a separator, a text without one is the last of at least two
    segments. *)
Lemma split_app_sep s e :
  sep ∉ e → ∃ seg segs, split sep (s ++ sep :: e) = seg :: segs ++ [e].
Proof.
  intros He. induction s as [| u r (seg & segs & IH)]; cbn.
  - rewrite N.eqb_refl, (split_without_sep e He). by exists [], [].
  - rewrite IH. destruct (u =? sep).
    + by exists [], (seg :: segs).
    + by exists (u :: seg), segs.
Qed.

Lemma pop_split_app_sep s e : sep ∉ e → pop (split sep (s ++ sep :: e)) = Some e.
Proof.
  intros He. destruct (split_app_sep s e He) as (seg & segs & ->).
  unfold pop. by rewrite app_comm_cons, last_snoc.
Qed.

Lemma pop_split_no_sep s : ∀ e, pop (split sep s) = Some e → sep ∉ e.
Proof.
  intros e He. unfold pop in He. apply last_Some in He as [l' Hl].
  pose proof (split_segments s) as Hf. rewrite Hl in Hf.
  apply Forall_app in Hf as [_ Hf]. by inversion Hf.
Qed.
End Split.

(** The extension of a name without a dot is the whole name. *)
Lemma extension_dotless stem content fallback :
  ch "." ∉ stem → stem ≠ [] →
  extension (File.mk stem content) fallback = stem.
Proof.
  intros Hd Hn. unfold extension; cbn [File.name].
  rewrite (split_without_sep _ _ Hd). by destruct stem.
Qed.

(** The extension of [stem.ext] is [ext], when [ext] is not empty and has
    no dot; the fallback is taken when the name ends in a dot. *)
Lemma extension_after_dot stem ext content fallback :
  ch "." ∉ ext →
  extension (File.mk (stem ++ str "." ++ ext) content) fallback = or_str ext fallback.
Proof.
  intros Hd. unfold extension; cbn [File.name].
  change (str "." ++ ext) with (ch "." :: ext).
  by rewrite (pop_split_app_sep _ stem ext Hd).
Qed.

Lemma extension_no_dot f fallback :
  ch "." ∉ fallback → ch "." ∉ extension f fallback.
Proof.
  intros Hf. unfold extension.
  destruct (pop (split (ch ".") (File.name f))) as [e |] eqn:He; cbn; [| done].
  apply pop_split_no_sep in He. by destruct e.
Qed.

(** [safeName] works unit by unit. *)
Lemma safeName_app a b : safeName (a ++ b) = safeName a ++ safeName b.
Proof. unfold safeName, replace_class, toLowerCase. by rewrite !flat_map_app. Qed.





Lemma class_is_disallowed u :
  class_matches true
    [CRange (ch "a") (ch "z"); CRange (ch "0") (ch "9");
     CChar (ch "-"); CChar (ch "_"); CChar (ch ".")] u
  = negb (allowed_unit u).
Proof.
  unfold class_matches, allowed_unit, is_lower_letter, is_digit; cbn [existsb item_matches].
  rewrite orb_false_r, !orb_assoc. by destruct (_ || _).
Qed.

Lemma safeName_refines s : safeName s = safeName_spec s.
Proof.
  unfold safeName, safeName_spec, replace_class.
  induction (toLowerCase s) as [| u l IH]; [done |]. cbn [flat_map map].
  rewrite IH, class_is_disallowed. by destruct (allowed_unit u).
Qed.

Lemma safeName_allowed s : Forall (λ u, allowed_unit u = true) (safeName s).
Proof.
  rewrite safeName_refines. unfold safeName_spec.
  induction (toLowerCase s) as [| u l IH]; cbn [map]; constructor; [| done].
  by destruct (allowed_unit u) eqn:Hu.
Qed.

(** The paths a run uploads to, by the first failure. *)
Lemma uploads_submit env s client country image sound :
  supabase env = Some client → activeCountry s = Some country →
  imageFile s = Some image → audioFile s = Some sound →
  uploads (trace (submit env s))
  = (images, object_name country (title s) (uuid env) image (str "jpg"))
    :: match upload_result env images with
       | UploadOk _ => [(audio, object_name country (title s) (uuid env) sound (str "mp3"))]
       | UploadErr _ => []
       end.
Proof.
  intros Hc Ha Hi Hs.
  destruct (upload_result env images) as [ip | ei] eqn:Hui.
  - destruct (upload_result env audio) as [ap | ea] eqn:Hua.
    + destruct (insert_result env) as [ed |] eqn:Hd.
      * by erewrite submit_insert_failed.
      * by erewrite submit_completed.
    + by erewrite submit_audio_failed.
  - by erewrite submit_image_failed.
Qed.

Ltac cases_on_units :=
  repeat match goal with
         | |- context [?a <=? ?b] => destruct (N.leb_spec a b); try lia; cbn
         | |- context [?a <? ?b] => destruct (N.ltb_spec a b); try lia; cbn
         | |- context [?a =? ?b] => destruct (N.eqb_spec a b); try lia; cbn
         end.

Lemma safeName_unit u : safeName [u] = safe_unit u.
Proof.
  unfold safeName, replace_class, toLowerCase, lower_unit, safe_unit, allowed_unit,
    is_lower_letter, is_digit, ascii_lower, class_matches.
  change (ch "A") with 65. change (ch "Z") with 90. change (ch "a") with 97.
  change (ch "z") with 122. change (ch "0") with 48. change (ch "9") with 57.
  change (ch "-") with 45. change (ch "_") with 95. change (ch ".") with 46.
  change (ch "i") with 105. change (ch "k") with 107. change (str "-") with [45].
  cbn [flat_map existsb item_matches app].
  destruct (N.ltb_spec u 128); cases_on_units; reflexivity.
Qed.

Lemma safeName_by_units s : safeName s = flat_map safe_unit s.
Proof.
  induction s as [| u s IH]; [done |].
  change (u :: s) with ([u] ++ s). by rewrite safeName_app, IH, safeName_unit.
Qed.

Lemma toLowerCase_ascii s :
  Forall (λ u, u < 128) s → toLowerCase s = map ascii_lower s.
Proof.
  induction 1 as [| u s Hu _ IH]; [done |].
  unfold toLowerCase in *. cbn [flat_map map]. rewrite IH. f_equal.
  unfold lower_unit, ascii_lower. change (ch "A") with 65. change (ch "Z") with 90.
  cases_on_units; reflexivity.
Qed.

Lemma toLowerCase_latin1 u :
  192 <= u <= 222 → u ≠ 215 → toLowerCase [u] = [u + 32].
Proof.
  intros Hu Hne. unfold toLowerCase, lower_unit; cbn [flat_map].
  cases_on_units; reflexivity.
Qed.

(** The names of the sample submit are joined by hyphens: they are not
    [safeName] of the bare concatenation of code, title and identifier. *)
Lemma base_name_is_not_bare_concatenation :
  uploads (trace (submit env_ok form_filled))
  = [(images, str "jp-song-1b4e28ba-2fa1-41d2-883f-0016d3cca427.png");
     (audio, str "jp-song-1b4e28ba-2fa1-41d2-883f-0016d3cca427.mp3")]
  ∧ safeName (Country.code japan ++ title form_filled ++ uuid env_ok)
    = str "jpsong1b4e28ba-2fa1-41d2-883f-0016d3cca427"
  ∧ ∀ b p ext, (b, p) ∈ uploads (trace (submit env_ok form_filled)) →
      p ≠ safeName (Country.code japan ++ title form_filled ++ uuid env_ok)
          ++ str "." ++ ext.
Proof.
  split_and!; [reflexivity | reflexivity |].
  intros b p ext Hin Heq.
  assert (Hp : p !! 2%nat = Some (ch "s")) by (by rewrite Heq).
  change (uploads (trace (submit env_ok form_filled)))
    with [(images, str "jp-song-1b4e28ba-2fa1-41d2-883f-0016d3cca427.png");
          (audio, str "jp-song-1b4e28ba-2fa1-41d2-883f-0016d3cca427.mp3")] in Hin.
  rewrite !elem_of_cons, elem_of_nil in Hin.
  destruct Hin as [[= -> ->] | [[= -> ->] | []]]; discriminate Hp.
Qed.

(** C6, amended.  [safeName] lowercases its input and then puts a hyphen
    for every unit outside a-z, 0-9, hyphen, underscore and dot: unit by
    unit, an ASCII capital becomes its small letter, an allowed unit stays,
    and any other unit becomes a hyphen (U+0130 gives "i" and a hyphen, the
    Kelvin sign "k"); its result holds only allowed units, for every input,
    as on "Côte d'Ivoire!! 2024".  Every object a submit uploads is named
    by [safeName] of the country code, a hyphen, the title or, when the
    title is empty, "upload", a hyphen and the identifier, followed by a
    dot and an extension. *)
Theorem safeName_normalises :
  (∀ s, safeName s = safeName_spec s)
  ∧ (∀ s, safeName s = flat_map safe_unit s)
  ∧ (∀ s, Forall (λ u, u < 128) s → toLowerCase s = map ascii_lower s)
  ∧ (∀ u, 192 <= u <= 222 → u ≠ 215 → toLowerCase [u] = [u + 32])
  ∧ (∀ s, Forall (λ u, allowed_unit u = true) (safeName s))
  ∧ safeName (str "C" ++ [244] ++ str "te d'Ivoire!! 2024") = str "c-te-d-ivoire---2024"
  ∧ safeName (str "Hello World_1.PNG, AZ") = str "hello-world_1.png--az"
  ∧ (∀ env s client country image sound,
       supabase env = Some client → activeCountry s = Some country →
       imageFile s = Some image → audioFile s = Some sound →
       uploads (trace (submit env s)) ≠ []
       ∧ ∀ b p, (b, p) ∈ uploads (trace (submit env s)) →
           ∃ ext, p = safeName (Country.code country ++ str "-"
                                 ++ match title s with
                                    | [] => str "upload"
                                    | _ :: _ => title s
                                    end
                                 ++ str "-" ++ uuid env)
                      ++ str "." ++ ext)
  ∧ uploads (trace (submit env_ok form_filled))
    = [(images, str "jp-song-1b4e28ba-2fa1-41d2-883f-0016d3cca427.png");
       (audio, str "jp-song-1b4e28ba-2fa1-41d2-883f-0016d3cca427.mp3")]
  ∧ uploads (trace (submit env_ok (with_title empty form_filled)))
    = [(images, str "jp-upload-1b4e28ba-2fa1-41d2-883f-0016d3cca427.png");
       (audio, str "jp-upload-1b4e28ba-2fa1-41d2-883f-0016d3cca427.mp3")].
Proof.
  split_and!.
  - apply safeName_refines.
  - apply safeName_by_units.
  - apply toLowerCase_ascii.
  - apply toLowerCase_latin1.
  - apply safeName_allowed.
  - reflexivity.
  - reflexivity.
  - intros env s client country image sound Hc Ha Hi Hs.
    rewrite (uploads_submit env s client country image sound Hc Ha Hi Hs).
    split; [done |]. intros b p. rewrite elem_of_cons. intros [[= -> ->] | Hin].
    + eexists. unfold object_name, base_name, or_str. reflexivity.
    + destruct (upload_result env images); [| by apply elem_of_nil in Hin].
      apply list_elem_of_singleton in Hin as [= -> ->].
      eexists. unfold object_name, base_name, or_str. reflexivity.
  - reflexivity.
  - reflexivity.
Qed.

Lemma safeName_normalises_witness :
  uploads (trace (submit env_ok (with_title empty form_filled))) ≠ []
  ∧ ∀ b p, (b, p) ∈ uploads (trace (submit env_ok (with_title empty form_filled))) →
      ∃ ext, p = str "jp-upload-1b4e28ba-2fa1-41d2-883f-0016d3cca427." ++ ext.
Proof.
  exact (proj1 (proj2 (proj2 (proj2 (proj2 (proj2 (proj2 (proj2 safeName_normalises)))))))
           env_ok (with_title empty form_filled) sample_client japan photo_png song_mp3
           eq_refl eq_refl eq_refl eq_refl).
Defined.

(** C7.  With files named "photo" and "song", names without an extension,
    the objects are uploaded as "<base>.photo" and "<base>.song": the whole
    file name takes the place of the extension, not "jpg" and "mp3". *)
Theorem dotless_file_names :
  uploads (trace (submit env_ok form_bare))
  = [(images, str "jp-song-1b4e28ba-2fa1-41d2-883f-0016d3cca427.photo");
     (audio, str "jp-song-1b4e28ba-2fa1-41d2-883f-0016d3cca427.song")].
Proof. reflexivity. Qed.

(** ** The identifier *)



Lemma new_row_country_code client country t i ip ap :
  new_row client country t i ip ap !! "country_code" = Some (JStr (Country.code country)).
Proof. unfold new_row. apply lookup_insert_eq. Qed.





(** ** The filtered view *)

Section Selects.
Context {A : Type} (P : A → Prop) `{!∀ x, Decision (P x)}.

Lemma selects_filter l : selects P l (filter P l).
Proof.
  induction l as [| x l IH]; [constructor |].
  destruct (decide (P x)) as [Hx | Hx].
  - rewrite filter_cons_True by done. by constructor.
  - rewrite filter_cons_False by done. by constructor.
Qed.

Lemma selects_unique l r : selects P l r → r = filter P l.
Proof.
  induction 1 as [| x l r Hx _ IH | x l r Hx _ IH].
  - done.
  - rewrite filter_cons_True by done. by f_equal.
  - by rewrite filter_cons_False.
Qed.
End Selects.

(** C4.  [countryEntries] is a function of the entries and the selection
    alone.  With a country selected it returns exactly the entries whose
    [country_code] equals the selected code, in their order in the list: a
    subsequence of the entries, holding an entry if and only if the entry is
    in the list with that code.  With no selection it returns the empty
    list.  On a store with codes "DE", "FR", "DE" the query "DE" gives the
    two "DE" entries in order and "JP" gives none. *)
Theorem countryEntries_filters :
  (∀ entries c,
     selects (λ e, Entry.country_code e = Country.code c) entries
       (countryEntries entries (Some c)))
  ∧ (∀ entries c r,
       selects (λ e, Entry.country_code e = Country.code c) entries r →
       r = countryEntries entries (Some c))
  ∧ (∀ entries c, countryEntries entries (Some c) `sublist_of` entries)
  ∧ (∀ entries c e,
       e ∈ countryEntries entries (Some c)
       ↔ e ∈ entries ∧ Entry.country_code e = Country.code c)
  ∧ (∀ entries, countryEntries entries None = [])
  ∧ countryEntries [entry_de_new; entry_fr; entry_de_old] (Some germany)
    = [entry_de_new; entry_de_old]
  ∧ countryEntries [entry_de_new; entry_fr; entry_de_old] (Some japan) = [].
Proof.
  split_and!.
  - intros entries c. apply selects_filter.
  - intros entries c r. apply selects_unique.
  - intros entries c. apply sublist_filter.
  - intros entries c e. unfold countryEntries. rewrite list_elem_of_filter. tauto.
  - done.
  - reflexivity.
  - reflexivity.
Qed.

Lemma countryEntries_filters_witness :
  [entry_fr] = countryEntries [entry_de_new; entry_fr; entry_de_old]
                 (Some (Country.mk (str "FR") (str "France"))).
Proof.
  apply (proj1 (proj2 countryEntries_filters)).
  apply selects_drop; [discriminate |].
  apply selects_keep; [reflexivity |].
  apply selects_drop; [discriminate |].
  apply selects_nil.
Defined.

(** ** The country of a map feature *)

(** C8.  For every property bag the resolver's code is the first non-empty
    value among ISO_A2_EH, then ISO_A2, and the empty string when neither
    has one; its name is the first non-empty value among NAME, ADMIN,
    NAME_LONG, and "Unbenannt" when none has one.  Both are total
    functions of the bag. *)
Theorem resolver_takes_first_nonempty :
  (∀ properties : gmap string jsstring,
     Geography.code properties
     = first_nonempty ["ISO_A2_EH"; "ISO_A2"]%string properties empty
     ∧ Geography.name properties
       = first_nonempty ["NAME"; "ADMIN"; "NAME_LONG"]%string properties
           (str "Unbenannt"))
  ∧ (∀ (properties : gmap string jsstring) u v,
       properties !! "ISO_A2_EH"%string = Some (u :: v) →
       Geography.code properties = u :: v)
  ∧ (∀ properties : gmap string jsstring,
       properties !! "ISO_A2_EH"%string = None →
       properties !! "ISO_A2"%string = None →
       Geography.code properties = empty)
  ∧ (∀ properties : gmap string jsstring,
       properties !! "NAME"%string = None →
       properties !! "ADMIN"%string = None →
       properties !! "NAME_LONG"%string = None →
       Geography.name properties = str "Unbenannt").
Proof.
  split_and!.
  - intros properties. unfold Geography.code, Geography.name, Geography.prop; cbn.
    split.
    + destruct (properties !! "ISO_A2_EH"%string) as [[| ? ?] |],
        (properties !! "ISO_A2"%string) as [[| ? ?] |]; reflexivity.
    + destruct (properties !! "NAME"%string) as [[| ? ?] |],
        (properties !! "ADMIN"%string) as [[| ? ?] |],
        (properties !! "NAME_LONG"%string) as [[| ? ?] |]; reflexivity.
  - intros properties u v H. unfold Geography.code, Geography.prop, jsstring in *.
    by rewrite H.
  - intros properties H1 H2. unfold Geography.code, Geography.prop, jsstring in *.
    by rewrite H1, H2.
  - intros properties H1 H2 H3. unfold Geography.name, Geography.prop, jsstring in *.
    by rewrite H1, H2, H3.
Qed.

Lemma resolver_takes_first_nonempty_witness :
  Geography.name ({[ "ISO_A2"%string := str "JP" ]} : gmap string jsstring)
  = str "Unbenannt".
Proof.
  apply (proj2 (proj2 (proj2 resolver_takes_first_nonempty))); reflexivity.
Defined.

(** ** Flags *)

Lemma fromCodePoint_pair cp :
  65536 <= cp <= 1114111 →
  fromCodePoint cp = Some [55296 + (cp - 65536) / 1024; 56320 + (cp - 65536) mod 1024]
  ∧ astral_code_points [55296 + (cp - 65536) / 1024; 56320 + (cp - 65536) mod 1024]
    = Some [cp].
Proof.
  intros Hcp. unfold fromCodePoint.
  destruct (N.leb_spec cp 65535); [lia |]. destruct (N.leb_spec cp 1114111); [| lia].
  split; [done |]. cbn [astral_code_points].
  set (hi := (cp - 65536) / 1024). set (lo := (cp - 65536) mod 1024).
  assert (Hlo : lo < 1024) by (apply N.mod_lt; lia).
  assert (Hhi : hi < 1024) by (apply N.Div0.div_lt_upper_bound; lia).
  assert (Hcp' : cp - 65536 = 1024 * hi + lo) by (apply N.div_mod; lia).
  destruct (N.leb_spec 55296 (55296 + hi)); [| lia].
  destruct (N.leb_spec (55296 + hi) 56319); [| lia].
  destruct (N.leb_spec 56320 (56320 + lo)); [| lia].
  destruct (N.leb_spec (56320 + lo) 57343); [| lia].
  cbn. do 2 f_equal. lia.
Qed.

Lemma astral_code_points_app hi lo r cp cps :
  astral_code_points [hi; lo] = Some [cp] → astral_code_points r = Some cps →
  astral_code_points (hi :: lo :: r) = Some (cp :: cps).
Proof.
  cbn [astral_code_points]. destruct (_ && _); [| done].
  cbn. intros [= <-] ->. done.
Qed.

Section FlagFacts.
Variable toUpperCase : jsstring → jsstring.

(** The symbols of a code whose upper-cased form is [up]. *)
Lemma flag_symbols up :
  well_formed up →
  ∃ out,
    mapM (λ x, match charCodeAt x 0 with
               | Some u => fromCodePoint (127397 + u)
               | None => None
               end) (split_units up) ≫= (λ chars, Some (join_empty chars)) = Some out
    ∧ astral_code_points out = Some (map (λ u, 127397 + u) up)
    ∧ length out = (2 * length up)%nat.
Proof.
  induction 1 as [| u up Hu _ (out & Hm & Hd & Hl)].
  - by exists [].
  - destruct (fromCodePoint_pair (127397 + u)) as [Hf Ha]; [lia |].
    destruct (mapM _ (split_units up)) as [chars |] eqn:Hchars; [| done].
    cbn in Hm. injection Hm as <-.
    eexists. change (split_units (u :: up)) with ([u] :: split_units up).
    cbn [mapM]. change (charCodeAt [u] 0) with (Some u). cbn beta iota.
    rewrite Hf, Hchars. split_and!.
    + reflexivity.
    + by apply astral_code_points_app.
    + cbn. unfold join_empty in Hl. lia.
Qed.

Lemma flag_of_two c :
  length c = 2%nat →
  flagEmojiFromISO2 toUpperCase (Some c)
  = mapM (λ x, match charCodeAt x 0 with
               | Some u => fromCodePoint (127397 + u)
               | None => None
               end) (split_units (toUpperCase c)) ≫= (λ chars, Some (join_empty chars)).
Proof. intros Hl. destruct c as [| a [| b [| ? ?]]]; try discriminate. reflexivity. Qed.
End FlagFacts.

Lemma upper_ascii_letter u :
  regional_indicator (127397 + upper_ascii u) = is_ascii_letter u.
Proof.
  unfold regional_indicator, is_ascii_letter, upper_ascii.
  change (ch "a") with 97. change (ch "z") with 122.
  change (ch "A") with 65. change (ch "Z") with 90.
  destruct (N.leb_spec 97 u), (N.leb_spec u 122), (N.leb_spec 65 u), (N.leb_spec u 90);
    cbn;
    repeat match goal with
           | |- context [?a <=? ?b] => destruct (N.leb_spec a b); try lia; cbn
           end; try reflexivity; lia.
Qed.

Lemma fromCodePoint_letter u :
  is_ascii_letter u = true →
  fromCodePoint (127397 + upper_ascii u) = Some [55356; 56741 + upper_ascii u].
Proof.
  intros Hu. rewrite <- upper_ascii_letter in Hu. unfold regional_indicator in Hu.
  apply andb_true_iff in Hu as [H1 H2]. apply N.leb_le in H1, H2.
  destruct (fromCodePoint_pair (127397 + upper_ascii u)) as [-> _]; [lia |].
  rewrite <- (N.div_unique (127397 + upper_ascii u - 65536) 1024 60 (421 + upper_ascii u))
    by lia.
  rewrite <- (N.mod_unique (127397 + upper_ascii u - 65536) 1024 60 (421 + upper_ascii u))
    by lia.
  do 3 f_equal. lia.
Qed.

(** X1.  On a code whose upper-cased form is a string of 16-bit units the
    flag function does not throw; it returns the empty string for [null]
    and for every code whose length is not 2, and otherwise one surrogate
    pair per upper-cased unit, which reads back as that unit plus 127397. *)
Theorem flag_is_pairs toUpperCase :
  flagEmojiFromISO2 toUpperCase None = Some empty
  ∧ ∀ c, well_formed (toUpperCase c) →
      ∃ out, flagEmojiFromISO2 toUpperCase (Some c) = Some out
        ∧ (length c ≠ 2%nat → out = empty)
        ∧ (length c = 2%nat →
             astral_code_points out = Some (map (λ u, 127397 + u) (toUpperCase c))
             ∧ length out = (2 * length (toUpperCase c))%nat).
Proof.
  split; [done |]. intros c Hwf.
  destruct (decide (length c = 2%nat)) as [Hl | Hl].
  - destruct (flag_symbols (toUpperCase c) Hwf) as (out & Hm & Hd & Hlen).
    exists out. rewrite (flag_of_two _ _ Hl). split_and!; [done | done | done].
  - exists empty. split_and!; [| done | done].
    unfold flagEmojiFromISO2.
    destruct (Nat.eqb_spec (length c) 2); [done |]. by rewrite orb_true_r.
Qed.

Lemma flag_is_pairs_witness :
  ∃ out, flagEmojiFromISO2 toUpperCase_ascii (Some (str "us")) = Some out
    ∧ astral_code_points out = Some [127482; 127480].
Proof.
  destruct (proj2 (flag_is_pairs toUpperCase_ascii) (str "us")) as (out & H1 & _ & H3).
  - repeat constructor.
  - exists out. split; [exact H1 |]. exact (proj1 (H3 eq_refl)).
Defined.

(** X2.  With a host that upper-cases ASCII unit by unit, a code of two
    ASCII letters in either case gives the two regional indicator symbols
    of its upper-cased letters, so a code and its upper-cased form give the
    same flag. *)
Theorem flag_of_letters toUpperCase a b :
  (∀ s, Forall (λ u, u < 128) s → toUpperCase s = map upper_ascii s) →
  is_ascii_letter a = true → is_ascii_letter b = true →
  flagEmojiFromISO2 toUpperCase (Some [a; b])
    = Some [55356; 56741 + upper_ascii a; 55356; 56741 + upper_ascii b]
  ∧ astral_code_points [55356; 56741 + upper_ascii a; 55356; 56741 + upper_ascii b]
    = Some [127397 + upper_ascii a; 127397 + upper_ascii b]
  ∧ regional_indicator (127397 + upper_ascii a) = true
  ∧ regional_indicator (127397 + upper_ascii b) = true
  ∧ flagEmojiFromISO2 toUpperCase (Some [upper_ascii a; upper_ascii b])
    = flagEmojiFromISO2 toUpperCase (Some [a; b]).
Proof.
  intros Hhost Ha Hb.
  assert (Hlt : ∀ u, is_ascii_letter u = true → u < 128 ∧ upper_ascii u < 128
                     ∧ upper_ascii (upper_ascii u) = upper_ascii u).
  { intros u. unfold is_ascii_letter, upper_ascii.
    change (ch "a") with 97. change (ch "z") with 122.
    change (ch "A") with 65. change (ch "Z") with 90.
    rewrite orb_true_iff, !andb_true_iff, !N.leb_le. intros Hu.
    destruct (N.leb_spec 97 u), (N.leb_spec u 122); cbn;
      repeat match goal with
             | |- context [?x <=? ?y] => destruct (N.leb_spec x y); try lia; cbn
             end; lia. }
  destruct (Hlt a Ha) as (Ha1 & Ha2 & Ha3), (Hlt b Hb) as (Hb1 & Hb2 & Hb3).
  assert (Hflag : flagEmojiFromISO2 toUpperCase (Some [a; b])
            = Some [55356; 56741 + upper_ascii a; 55356; 56741 + upper_ascii b]).
  { rewrite flag_of_two by done. rewrite Hhost by (repeat constructor; done).
    cbn [map split_units mapM]. change (charCodeAt [?u] 0) with (Some u). cbn beta iota.
    by rewrite !fromCodePoint_letter. }
  split_and!.
  - exact Hflag.
  - destruct (fromCodePoint_pair (127397 + upper_ascii a)) as [Hfa Hda]; [lia |].
    destruct (fromCodePoint_pair (127397 + upper_ascii b)) as [Hfb Hdb]; [lia |].
    rewrite fromCodePoint_letter in Hfa, Hfb by done.
    injection Hfa as Hfa1 Hfa2. injection Hfb as Hfb1 Hfb2.
    rewrite <- Hfa1, <- Hfa2 in Hda. rewrite <- Hfb1, <- Hfb2 in Hdb.
    by apply astral_code_points_app.
  - by rewrite upper_ascii_letter.
  - by rewrite upper_ascii_letter.
  - rewrite Hflag, flag_of_two by done. rewrite Hhost by (repeat constructor; done).
    cbn [map split_units mapM]. change (charCodeAt [?u] 0) with (Some u). cbn beta iota.
    rewrite Ha3, Hb3. by rewrite !fromCodePoint_letter.
Qed.

Lemma flag_of_letters_witness :
  flagEmojiFromISO2 toUpperCase_ascii (Some (str "us")) = Some [55356; 56826; 55356; 56824].
Proof.
  exact (proj1 (flag_of_letters toUpperCase_ascii (ch "u") (ch "s")
                  (λ s _, eq_refl) eq_refl eq_refl)).
Defined.

Lemma shifted_units_inj (l l' : list N) :
  map (λ u, 127397 + u) l = map (λ u, 127397 + u) l' → l = l'.
Proof.
  revert l'. induction l as [| u l IH]; intros [| u' l'] Hmap; cbn in Hmap;
    try discriminate; [done |].
  injection Hmap as Hu Hrest. f_equal; [lia | by apply IH].
Qed.

(** X3.  Two codes of length 2 with the same flag have the same upper-cased
    form: the flag tells codes apart up to case. *)
Theorem flag_injective toUpperCase c c' :
  length c = 2%nat → length c' = 2%nat →
  well_formed (toUpperCase c) → well_formed (toUpperCase c') →
  flagEmojiFromISO2 toUpperCase (Some c) = flagEmojiFromISO2 toUpperCase (Some c') →
  toUpperCase c = toUpperCase c'.
Proof.
  intros Hl Hl' Hw Hw' Heq. rewrite !flag_of_two in Heq by done.
  destruct (flag_symbols (toUpperCase c) Hw) as (out & Hm & Hd & _).
  destruct (flag_symbols (toUpperCase c') Hw') as (out' & Hm' & Hd' & _).
  rewrite Hm, Hm' in Heq. injection Heq as <-. rewrite Hd in Hd'.
  injection Hd' as Hd'. by apply shifted_units_inj.
Qed.

Lemma flag_injective_witness :
  toUpperCase_ascii (str "de") = toUpperCase_ascii (str "DE").
Proof.
  apply (flag_injective toUpperCase_ascii (str "de") (str "DE")).
  - reflexivity.
  - reflexivity.
  - repeat constructor.
  - repeat constructor.
  - reflexivity.
Defined.

(** X4.  The flag function does not check that a code is made of letters:
    for a code of two ASCII units it returns two symbols, and both are
    regional indicators exactly when both units are ASCII letters. *)
Theorem flag_only_of_letters toUpperCase a b :
  (∀ s, Forall (λ u, u < 128) s → toUpperCase s = map upper_ascii s) →
  a < 128 → b < 128 →
  ∃ out cps,
    flagEmojiFromISO2 toUpperCase (Some [a; b]) = Some out
    ∧ astral_code_points out = Some cps
    ∧ length cps = 2%nat
    ∧ (forallb regional_indicator cps = true
       ↔ is_ascii_letter a = true ∧ is_ascii_letter b = true).
Proof.
  intros Hhost Ha Hb.
  assert (Hup : toUpperCase [a; b] = [upper_ascii a; upper_ascii b]).
  { rewrite Hhost by (repeat constructor; done). done. }
  assert (Hlt : ∀ u, u < 128 → upper_ascii u < 65536).
  { intros u Hu. unfold upper_ascii. destruct (_ && _); lia. }
  destruct (flag_symbols (toUpperCase [a; b])) as (out & Hf & Hcps & _).
  { rewrite Hup. repeat constructor; by apply Hlt. }
  rewrite <- flag_of_two in Hf by done. rewrite Hup in Hcps.
  exists out, [127397 + upper_ascii a; 127397 + upper_ascii b].
  split_and!; [done | done | done |].
  cbn [forallb]. rewrite !upper_ascii_letter, andb_true_r. apply andb_true_iff.
Qed.

Lemma flag_only_of_letters_witness :
  ∃ out cps,
    flagEmojiFromISO2 toUpperCase_ascii (Some (str "-9")) = Some out
    ∧ astral_code_points out = Some cps
    ∧ forallb regional_indicator cps = false.
Proof.
  destruct (flag_only_of_letters toUpperCase_ascii (ch "-") (ch "9") (λ s _, eq_refl))
    as (out & cps & H1 & H2 & _ & H4).
  - reflexivity.
  - reflexivity.
  - exists out, cps. split_and!; [exact H1 | exact H2 |].
    destruct (forallb regional_indicator cps); [| reflexivity].
    destruct (proj1 H4 eq_refl) as [H _]. discriminate H.
Defined.

(** ** Configuration *)

(** X5.  The badge and the client agree: the badge reads "Verbunden"
    exactly when both settings are present and not empty, which is exactly
    when there is a client.  Otherwise every submit is rejected with the
    configuration text and no request, and the mount sends no request and
    ends with the loading flag false. *)
Theorem badge_matches_client createClient cfg :
  (Config.badge cfg = str "Verbunden" ↔ is_Some (Config.supabase createClient cfg))
  ∧ (is_Some (Config.supabase createClient cfg)
     ↔ ∃ u url k key, Config.VITE_SUPABASE_URL cfg = Some (u :: url)
                      ∧ Config.VITE_SUPABASE_ANON_KEY cfg = Some (k :: key))
  ∧ (Config.badge cfg = str "Hinweis: Supabase Variablen fehlen" →
     ∀ env s, supabase env = Config.supabase createClient cfg →
       submit env s = mkWorld (with_error msg_not_configured s) [PreventDefault]
       ∧ mount env s = mkWorld (with_loading false s) []
       ∧ error (ui (submit env s)) = msg_not_configured
       ∧ net_calls (trace (submit env s)) = []
       ∧ loading (ui (mount env s)) = false
       ∧ entries (ui (mount env s)) = entries s
       ∧ net_calls (trace (mount env s)) = []).
Proof.
  destruct cfg as [[[| u url] |] [[| k key] |]];
    unfold Config.badge, Config.supabase; cbn; (split_and!; [split | split |]);
    try (by intros [? [=]]); try (by intros [=]); try done;
    try (by intros (? & ? & ? & ? & [=] & [=])); try (by eauto 10).
  all: intros _ env s Hs;
    rewrite (submit_not_configured env s Hs), (mount_not_configured env s Hs);
    split_and!; reflexivity.
Qed.

Lemma badge_matches_client_witness :
  loading initialUI = true
  ∧ loading (ui (mount env_unconfigured initialUI)) = false
  ∧ net_calls (trace (mount env_unconfigured initialUI)) = []
  ∧ error (ui (submit env_unconfigured form_filled)) = msg_not_configured.
Proof.
  pose proof (proj2 (proj2 (badge_matches_client (λ _ _, sample_client)
                (Config.mk (Some (str "https://demo.supabase.co")) None))) eq_refl) as H.
  destruct (H env_unconfigured initialUI eq_refl) as (_ & _ & _ & _ & Hl & _ & Hn).
  destruct (H env_unconfigured form_filled eq_refl) as (_ & _ & He & _).
  split_and!; [reflexivity | exact Hl | exact Hn | exact He].
Defined.

(** ** Events *)

Lemma ui_mount env s :
  ui (mount env s) = s
  ∨ ui (mount env s) = with_loading false s
  ∨ ∃ rows, ui (mount env s) = with_loading false (with_entries rows s).
Proof.
  destruct (supabase env) as [client |] eqn:Hc.
  - destruct (ignore env) eqn:Hi.
    + left. by rewrite (mount_ignored _ _ _ Hc Hi).
    + right; right. rewrite (mount_applied _ _ _ Hc Hi). by eexists.
  - right; left. by rewrite mount_not_configured.
Qed.

(** The selection after one event. *)
Lemma activeCountry_perform a env s :
  activeCountry (perform a env s)
  = match a with
    | ClickGeography properties =>
        Some (Country.mk (Geography.code properties) (Geography.name properties))
    | _ => activeCountry s
    end.
Proof.
  destruct a; try reflexivity.
  - change (perform Submit env s) with (ui (submit env s)). rewrite ui_submit.
    by destruct (outcome_of env s).
  - change (perform Mount env s) with (ui (mount env s)).
    destruct (ui_mount env s) as [-> | [-> | [rows ->]]]; reflexivity.
Qed.






(** ** More on a submit *)

Lemma submit_with_error env s m : submit env (with_error m s) = submit env s.
Proof. unfold with_error. expose env s. reflexivity. Qed.

Lemma submit_after_failure env s m client country image sound :
  supabase env = Some client → activeCountry s = Some country →
  imageFile s = Some image → audioFile s = Some sound →
  submit env (after_failure s m) = submit env s.
Proof.
  unfold after_failure. expose env s. intros -> -> -> ->.
  unfold submit, handleUpload, try_catch_finally, storage_upload, db_select, mbind,
    M_bind, asks; cbn.
  destruct (up images); [| reflexivity]; cbn.
  destruct (up audio); [| reflexivity]; cbn.
  destruct ins; reflexivity.
Qed.

(** X8.  A submit that did not complete leaves nothing behind in the page
    that a retry could see: with the same client, submitting again from the
    state the failed run ended in goes exactly as submitting from the state
    before it, with the same requests for the same country, title and
    files. *)
Theorem retry_as_if_first env env' s :
  supabase env' = supabase env → outcome_of env s ≠ Completed →
  submit env' (ui (submit env s)) = submit env' s.
Proof.
  intros Hsame Ho. rewrite ui_submit. unfold outcome_of in *.
  destruct (first_violated env s) as [p |] eqn:Hv.
  - apply submit_with_error.
  - destruct (first_violated_None _ _ Hv)
      as (client & country & image & sound & H1 & H2 & H3 & H4).
    destruct (first_failure env) as [[st e] |]; [| done]. cbn.
    apply (submit_after_failure env' s _ client country image sound);
      [congruence | done ..].
Qed.

Lemma retry_as_if_first_witness :
  submit env_ok (ui (submit env_insert_refused form_filled)) = submit env_ok form_filled.
Proof.
  apply (retry_as_if_first env_insert_refused env_ok form_filled).
  - reflexivity.
  - intros H. vm_compute in H. discriminate H.
Defined.

(** X9.  After a submit the error text is empty exactly when the run
    completed, whatever text the form showed before: an old error never
    survives a success and every failure shows a text. *)
Theorem error_iff_not_completed env s :
  error (ui (submit env s)) = [] ↔ outcome_of env s = Completed.
Proof.
  rewrite ui_submit. destruct (outcome_of env s) as [p | st e |]; cbn.
  - split; [| done]. intros H. by apply message_of_nonempty in H.
  - split; [| done]. intros H. by apply or_undef_fallback_nonempty in H.
  - done.
Qed.

(** X10.  A submit never changes the selection or the loading flag; it
    leaves the uploading flag as it was when a precondition fails and
    cleared in every other run; and it replaces the entries only when it
    completes. *)
Theorem submit_frame env s :
  activeCountry (ui (submit env s)) = activeCountry s
  ∧ loading (ui (submit env s)) = loading s
  ∧ uploading (ui (submit env s))
    = match first_violated env s with
      | Some _ => uploading s
      | None => false
      end
  ∧ entries (ui (submit env s))
    = match outcome_of env s with
      | Completed => or_empty (data_of (select_result env))
      | _ => entries s
      end.
Proof.
  rewrite ui_submit. unfold outcome_of.
  destruct (first_violated env s) as [p |]; [done |].
  by destruct (first_failure env) as [[st e] |].
Qed.

(** The requests of a run that passed the tests, by how far it got. *)
Lemma net_calls_ready env s client country image sound :
  supabase env = Some client → activeCountry s = Some country →
  imageFile s = Some image → audioFile s = Some sound →
  net_calls (trace (submit env s))
  = take (match first_failure env with
          | Some (st, _) => position st
          | None => 4
          end) (planned_calls env s client country image sound).
Proof.
  intros Hc Ha Hi Hs. unfold first_failure, planned_calls.
  destruct (upload_result env images) as [ip | ei] eqn:Hui.
  - destruct (upload_result env audio) as [ap | ea] eqn:Hua.
    + destruct (insert_result env) as [ed |] eqn:Hd.
      * by erewrite submit_insert_failed.
      * by erewrite submit_completed.
    + by erewrite submit_audio_failed.
  - by erewrite submit_image_failed.
Qed.

(** X11.  In every run of a submit, failed or completed, no request
    deletes a stored object and no upload overwrites one; a run that passed
    the tests sends a non-empty initial part of the sequence image upload,
    audio upload, insert, select, and all four exactly when nothing
    fails. *)
Theorem requests_in_order :
  (∀ env s, Forall (λ c, keeps_objects c = true) (net_calls (trace (submit env s))))
  ∧ (∀ env s client country image sound,
       supabase env = Some client → activeCountry s = Some country →
       imageFile s = Some image → audioFile s = Some sound →
       net_calls (trace (submit env s))
         `prefix_of` planned_calls env s client country image sound
       ∧ net_calls (trace (submit env s)) ≠ []
       ∧ (net_calls (trace (submit env s))
            = planned_calls env s client country image sound
          ↔ first_failure env = None)).
Proof.
  split.
  - intros env s. destruct (first_violated env s) as [p |] eqn:Hv.
    + rewrite (first_violated_Some _ _ _ Hv). constructor.
    + destruct (first_violated_None _ _ Hv)
        as (client & country & image & sound & H1 & H2 & H3 & H4).
      rewrite (net_calls_ready env s client country image sound H1 H2 H3 H4).
      apply Forall_take. unfold planned_calls. repeat constructor.
  - intros env s client country image sound Hc Ha Hi Hs.
    rewrite (net_calls_ready env s client country image sound Hc Ha Hi Hs).
    split_and!.
    + apply prefix_take.
    + by destruct (first_failure env) as [[[] ?] |].
    + destruct (first_failure env) as [[[] ?] |]; cbn; split; try done;
        intros H; by apply (f_equal length) in H.
Qed.

Lemma requests_in_order_witness :
  net_calls (trace (submit env_ok form_filled))
  = planned_calls env_ok form_filled sample_client japan photo_png song_mp3.
Proof.
  apply (proj2 (proj2 (proj2 requests_in_order env_ok form_filled sample_client japan
                         photo_png song_mp3 eq_refl eq_refl eq_refl eq_refl))).
  reflexivity.
Defined.

Lemma new_row_dom client country t i ip ap :
  dom (new_row client country t i ip ap)
  = ({[ "country_code"; "title"; "info"; "image_url"; "audio_url" ]} : gset string)%string.
Proof. unfold new_row. rewrite !dom_insert_L, dom_singleton_L. set_solver. Qed.

(** X12.  When both uploads succeed, exactly one row is sent, with the
    five fields country_code, title, info, image_url, audio_url and no
    other: the code of the selection, the title and the info with the empty
    text turned into null, and the public addresses of the paths the two
    uploads returned. *)
Theorem inserted_row_fields env s client country image sound ip ap :
  supabase env = Some client → activeCountry s = Some country →
  imageFile s = Some image → audioFile s = Some sound →
  upload_result env images = UploadOk ip → upload_result env audio = UploadOk ap →
  ∃ row : gmap string JsValue,
    inserted_rows (trace (submit env s)) = [row]
    ∧ dom row
      = ({[ "country_code"; "title"; "info"; "image_url"; "audio_url" ]} : gset string)%string
    ∧ row !! "country_code"%string = Some (JStr (Country.code country))
    ∧ row !! "title"%string
      = Some (match title s with [] => JNull | _ :: _ => JStr (title s) end)
    ∧ row !! "info"%string
      = Some (match info s with [] => JNull | _ :: _ => JStr (info s) end)
    ∧ row !! "image_url"%string = Some (JStr (getPublicUrl client images ip))
    ∧ row !! "audio_url"%string = Some (JStr (getPublicUrl client audio ap)).
Proof.
  intros Hc Ha Hi Hs Hui Hua.
  exists (new_row client country (title s) (info s) ip ap). split_and!.
  - destruct (insert_result env) as [ed |] eqn:Hd.
    + by erewrite submit_insert_failed.
    + by erewrite submit_completed.
  - apply new_row_dom.
  - apply new_row_country_code.
  - unfold new_row. by simplify_map_eq.
  - unfold new_row. by simplify_map_eq.
  - unfold new_row. by simplify_map_eq.
  - unfold new_row. by simplify_map_eq.
Qed.

Lemma inserted_row_fields_witness :
  ∃ row : gmap string JsValue,
    inserted_rows (trace (submit env_ok form_filled)) = [row]
    ∧ row !! "title"%string = Some (JStr (str "Song")).
Proof.
  destruct (inserted_row_fields env_ok form_filled sample_client japan photo_png song_mp3
              (str "i.png") (str "a.mp3") eq_refl eq_refl eq_refl eq_refl eq_refl eq_refl)
    as (row & H1 & _ & _ & H4 & _).
  exists row. split; [exact H1 | exact H4].
Defined.

Lemma perform_click properties env s :
  perform (ClickGeography properties) env s
  = with_activeCountry
      (Some (Country.mk (Geography.code properties) (Geography.name properties))) s.
Proof. reflexivity. Qed.

Lemma code_without_keys (properties : gmap string jsstring) :
  properties !! "ISO_A2_EH"%string = None → properties !! "ISO_A2"%string = None →
  Geography.code properties = empty.
Proof.
  intros H1 H2. unfold Geography.code, Geography.prop, jsstring in *. by rewrite H1, H2.
Qed.

(** X13.  Nothing rejects an empty country code.  After a click on a
    feature whose property bag has neither code key, a submit with both
    files and a client goes to the network: when no step fails it completes,
    the row is inserted with the empty text as its country_code, and both
    object names start with a hyphen. *)
Theorem empty_code_is_submitted (properties : gmap string jsstring) env s client image sound :
  properties !! "ISO_A2_EH"%string = None → properties !! "ISO_A2"%string = None →
  supabase env = Some client → imageFile s = Some image → audioFile s = Some sound →
  first_failure env = None →
  outcome_of env (perform (ClickGeography properties) env s) = Completed
  ∧ (∃ row : gmap string JsValue,
       inserted_rows (trace (submit env (perform (ClickGeography properties) env s)))
         = [row]
       ∧ row !! "country_code"%string = Some (JStr empty))
  ∧ uploads (trace (submit env (perform (ClickGeography properties) env s)))
    = [(images,
        ch "-" :: safeName (or_str (title s) (str "upload") ++ str "-" ++ uuid env)
          ++ str "." ++ extension image (str "jpg"));
       (audio,
        ch "-" :: safeName (or_str (title s) (str "upload") ++ str "-" ++ uuid env)
          ++ str "." ++ extension sound (str "mp3"))].
Proof.
  intros H1 H2 Hc Hi Hs Hf. rewrite perform_click, (code_without_keys _ H1 H2).
  set (country := Country.mk empty (Geography.name properties)).
  set (s' := with_activeCountry (Some country) s).
  assert (Hv : first_violated env s' = None).
  { unfold first_violated, holds; cbn. by rewrite Hc, Hi, Hs. }
  split_and!.
  - unfold outcome_of. by rewrite Hv, Hf.
  - unfold first_failure in Hf.
    destruct (upload_result env images) as [ip |] eqn:Hui; [| done].
    destruct (upload_result env audio) as [ap |] eqn:Hua; [| done].
    destruct (insert_result env) eqn:Hd; [done |].
    exists (new_row client country (title s') (info s') ip ap). split.
    + by rewrite (submit_completed env s' client country image sound
                    Hc eq_refl Hi Hs ip ap Hui Hua Hd).
    + apply new_row_country_code.
  - rewrite (uploads_submit env s' client country image sound) by done.
    unfold first_failure in Hf.
    destruct (upload_result env images) as [ip |] eqn:Hui; [| done].
    reflexivity.
Qed.

Lemma empty_code_is_submitted_witness :
  outcome_of env_ok (perform (ClickGeography bag_without_code) env_ok form_filled)
  = Completed.
Proof.
  exact (proj1 (empty_code_is_submitted bag_without_code env_ok form_filled sample_client
                  photo_png song_mp3 eq_refl eq_refl eq_refl eq_refl eq_refl eq_refl)).
Defined.

(** ** The selection *)

(** X7.  Through any sequence of events the selection is the country of
    the last click on the map, and what it was before when there was no
    click: no other handler, the submit and the load included, clears or
    replaces it. *)
Theorem selection_is_last_click l s :
  activeCountry (perform_all l s)
  = match last_click l with
    | Some properties =>
        Some (Country.mk (Geography.code properties) (Geography.name properties))
    | None => activeCountry s
    end.
Proof.
  revert s. induction l as [| [a env] l IH]; intros s; [done |].
  cbn [perform_all fold_left last_click]. fold (perform_all l (perform a env s)).
  rewrite IH. destruct (last_click l); [done |].
  rewrite activeCountry_perform. by destruct a.
Qed.

(** X14.  [safeName] leaves a text as it is exactly when the text holds
    only lowercase letters, digits, hyphen, underscore and dot; so applying
    it twice is the same as applying it once. *)
Theorem safeName_fixed_points :
  (∀ s, safeName s = s ↔ Forall (λ u, allowed_unit u = true) s)
  ∧ (∀ s, safeName (safeName s) = safeName s).
Proof.
  assert (Hunit : ∀ u, allowed_unit u = true → safeName [u] = [u]).
  { intros u. unfold allowed_unit, is_lower_letter, is_digit.
    change (ch "0") with 48. change (ch "9") with 57. change (ch "a") with 97.
    change (ch "z") with 122. change (ch "-") with 45. change (ch "_") with 95.
    change (ch ".") with 46.
    rewrite !orb_true_iff, !andb_true_iff, !N.leb_le, !N.eqb_eq. intros Hu.
    unfold safeName, replace_class, toLowerCase, lower_unit; cbn [flat_map].
    repeat match goal with
           | |- context [?a <=? ?b] => destruct (N.leb_spec a b); try lia; cbn
           | |- context [?a =? ?b] => destruct (N.eqb_spec a b); try lia; cbn
           end; reflexivity. }
  assert (Hfix : ∀ s, Forall (λ u, allowed_unit u = true) s → safeName s = s).
  { induction 1 as [| u s Hu _ IH]; [done |].
    change (u :: s) with ([u] ++ s). by rewrite safeName_app, IH, Hunit. }
  split.
  - intros s. split; [| apply Hfix]. intros <-. apply safeName_allowed.
  - intros s. apply Hfix, safeName_allowed.
Qed.

(** ** Extensions *)

Lemma last_dot_shape (sep : N) s :
  sep ∉ s ∨ ∃ stem ext, s = stem ++ sep :: ext ∧ sep ∉ ext.
Proof.
  induction s as [| u r [Hr | (stem & ext & -> & He)]].
  - left. apply not_elem_of_nil.
  - destruct (decide (u = sep)) as [-> | Hne].
    + right. by exists [], r.
    + left. rewrite not_elem_of_cons. done.
  - right. by exists (u :: stem), ext.
Qed.

(** X15.  With a fallback that is not empty and has no dot, the extension
    put on an object name is never empty and has no dot, and it is what the
    same rule reads back from the object name. *)
Theorem extension_reads_back country t id f d content :
  d ≠ [] → ch "." ∉ d →
  extension f d ≠ []
  ∧ (ch "." ∉ extension f d)
  ∧ extension (File.mk (object_name country t id f d) content) d = extension f d.
Proof.
  intros Hd Hdot.
  assert (Hne : extension f d ≠ []).
  { unfold extension. destruct (pop _) as [[| ? ?] |]; cbn; done. }
  assert (Hno : ch "." ∉ extension f d) by by apply extension_no_dot.
  split_and!; [done | done |].
  unfold object_name.
  rewrite (extension_after_dot _ _ _ _ Hno). by destruct (extension f d).
Qed.

Lemma extension_reads_back_witness :
  extension (File.mk (object_name japan (str "Song") sample_id photo_png (str "jpg")) [])
    (str "jpg")
  = extension photo_png (str "jpg").
Proof.
  apply (extension_reads_back japan (str "Song") sample_id photo_png (str "jpg") []).
  - discriminate.
  - refine (bool_decide_unpack _ _). vm_compute. exact I.
Defined.

(** X16.  The extension is the text after the last dot of the file name,
    and the whole name when the name has no dot; the fallback is taken only
    when that text is empty, that is for the empty name and for a name
    ending in a dot.  Every name has one of the two shapes. *)
Theorem extension_by_shape :
  (∀ name, ch "." ∉ name ∨ ∃ stem ext, name = stem ++ ch "." :: ext ∧ ch "." ∉ ext)
  ∧ (∀ u name content d,
       ch "." ∉ u :: name → extension (File.mk (u :: name) content) d = u :: name)
  ∧ (∀ content d, extension (File.mk [] content) d = d)
  ∧ (∀ stem u ext content d,
       ch "." ∉ u :: ext →
       extension (File.mk (stem ++ ch "." :: u :: ext) content) d = u :: ext)
  ∧ (∀ stem content d, extension (File.mk (stem ++ [ch "."]) content) d = d).
Proof.
  split_and!.
  - apply last_dot_shape.
  - intros u name content d Hn. unfold extension; cbn [File.name].
    by rewrite (split_without_sep _ _ Hn).
  - reflexivity.
  - intros stem u ext content d He.
    exact (extension_after_dot stem (u :: ext) content d He).
  - intros stem content d.
    exact (extension_after_dot stem [] content d (not_elem_of_nil _)).
Qed.

Lemma extension_by_shape_witness :
  extension (File.mk (str "archive.tar" ++ ch "." :: str "gz") []) (str "jpg") = str "gz"
  ∧ extension (File.mk (str "track" ++ [ch "."]) []) (str "mp3") = str "mp3"
  ∧ extension (File.mk [] []) (str "mp3") = str "mp3".
Proof.
  split_and!.
  - apply (proj1 (proj2 (proj2 (proj2 extension_by_shape)))
             (str "archive.tar") (ch "g") (str "z") [] (str "jpg")).
    refine (bool_decide_unpack _ _). vm_compute. exact I.
  - exact (proj2 (proj2 (proj2 (proj2 extension_by_shape))) (str "track") [] (str "mp3")).
  - exact (proj1 (proj2 (proj2 extension_by_shape)) [] (str "mp3")).
Defined.

(** ** Features with the same code *)

(** X17.  After a click on a feature, a feature is drawn as active exactly
    when its code equals the clicked one's, and the entries shown depend on
    the clicked feature through its code alone: features with equal codes,
    among them all features without a code, are highlighted together and
    show the same entries.  Before any click no feature is active. *)
Theorem same_code_same_selection (p q : gmap string jsstring) env s :
  (isActive (activeCountry (perform (ClickGeography p) env s)) (Geography.code q) = true
   ↔ Geography.code p = Geography.code q)
  ∧ (Geography.code p = Geography.code q →
     ∀ es, countryEntries es (activeCountry (perform (ClickGeography p) env s))
           = countryEntries es (activeCountry (perform (ClickGeography q) env s)))
  ∧ isActive (activeCountry initialUI) (Geography.code q) = false.
Proof.
  rewrite !perform_click. cbn [activeCountry with_activeCountry isActive Country.code].
  split_and!.
  - apply bool_decide_eq_true.
  - intros Heq es. unfold countryEntries; cbn [Country.code]. by rewrite Heq.
  - done.
Qed.

(** ** Loads and picks *)

(** X18.  A load whose answer is applied decides the entries and the
    loading flag whatever an earlier load did: the state after two loads is
    the state after the second alone. *)
Theorem last_load_wins env1 env2 s client :
  supabase env2 = Some client → ignore env2 = false →
  ui (mount env2 (ui (mount env1 s))) = ui (mount env2 s).
Proof.
  intros Hc Hi. rewrite !(mount_applied env2 _ client Hc Hi). cbn [ui].
  by destruct (ui_mount env1 s) as [-> | [-> | [rows ->]]].
Qed.

Lemma last_load_wins_witness :
  ui (mount env_ok (ui (mount env_cleaned_up initialUI))) = ui (mount env_ok initialUI).
Proof. exact (last_load_wins env_cleaned_up env_ok initialUI sample_client eq_refl eq_refl). Defined.



(** ** What no handler does *)

(** X20.  No handler throws to its caller, whatever the outside answers
    and whatever the state: the [catch] block of the submit takes the error
    of every failing step, and the load and the other handlers have nothing
    that throws. *)
Theorem handlers_never_throw a env s w : fst (handler a s env w) = inr ().
Proof.
  destruct a; try reflexivity.
  - apply handleUpload_returns.
  - apply load_returns.
Qed.

(** X21.  Each entry of the list is shown under its own country code and
    under no other: the views of two different codes share no entry, and a
    view is never longer than the list. *)
Theorem views_partition es :
  (∀ c c' e, Country.code c ≠ Country.code c' →
     e ∈ countryEntries es (Some c) → e ∉ countryEntries es (Some c'))
  ∧ (∀ e n, e ∈ es → e ∈ countryEntries es (Some (Country.mk (Entry.country_code e) n)))
  ∧ (∀ c, (length (countryEntries es (Some c)) ≤ length es)%nat).
Proof.
  unfold countryEntries. split_and!.
  - intros c c' e Hne. rewrite !list_elem_of_filter. intros [H1 _] [H2 _]. congruence.
  - intros e n He. rewrite list_elem_of_filter. done.
  - intros c. apply length_filter.
Qed.
